(** * Subway locker service: route handlers and their soft-delete life cycle

    A shallow embedding of the Express route handlers of the locker-rental
    backend (sign-up, users, comments, posts, stations) together with the
    JavaScript built-ins and the part of the Sequelize interface they call,
    followed by the properties of the handlers. *)

From Stdlib Require Import ZArith NArith List String Ascii Bool Lia Floats.
From Stdlib Require Import DecimalString.
From Stdlib Require Import Permutation Sorted.
Import ListNotations.

Set Implicit Arguments.
Set Warnings "-register-all".

(** ** JavaScript values and built-ins *)

Module Js.

(** A JavaScript string is a sequence of UTF-16 code units; [length] counts
    code units, as the [length] property does. *)
Definition code_unit := N.
Definition jsstring := list code_unit.

Definition lit (s : string) : jsstring :=
  List.map N_of_ascii (list_ascii_of_string s).

Definition jsstring_eqb (a b : jsstring) : bool :=
  if list_eq_dec N.eq_dec a b then true else false.

(** Values that reach a handler through a parsed JSON body. *)
Inductive JsValue : Type :=
| Undefined
| Null
| Bool (b : bool)
| Num (x : float)
| Str (s : jsstring)
| Arr (items : list JsValue)
| Obj (props : list (jsstring * JsValue)).

Inductive TypeTag := TUndefined | TObject | TBoolean | TNumber | TString.

(** [typeof v] *)
Definition typeof (v : JsValue) : TypeTag :=
  match v with
  | Undefined => TUndefined
  | Null => TObject
  | Bool _ => TBoolean
  | Num _ => TNumber
  | Str _ => TString
  | Arr _ => TObject
  | Obj _ => TObject
  end.

Definition TypeTag_eqb (a b : TypeTag) : bool :=
  match a, b with
  | TUndefined, TUndefined | TObject, TObject | TBoolean, TBoolean
  | TNumber, TNumber | TString, TString => true
  | _, _ => false
  end.

(** [ToBoolean]: the truthiness used by [if (v)] and [!v]. *)
Definition ToBoolean (v : JsValue) : bool :=
  match v with
  | Undefined => false
  | Null => false
  | Bool b => b
  | Num x => negb (PrimFloat.is_zero x || PrimFloat.is_nan x)
  | Str s => match s with [] => false | _ :: _ => true end
  | Arr _ => true
  | Obj _ => true
  end.

(** A finite double is an integer when its mantissa has no bit below the
    binary point. *)
Definition float_is_integer (x : float) : bool :=
  match Prim2SF x with
  | S754_zero _ => true
  | S754_finite _ m e =>
      (0 <=? e)%Z || (Z.land (Zpos m) (Z.ones (- e)) =? 0)%Z
  | S754_infinity _ => false
  | S754_nan => false
  end.

(** [Number.isInteger(v)]: no coercion, so false on everything but a
    number. *)
Definition Number_isInteger (v : JsValue) : bool :=
  match v with
  | Num x => float_is_integer x
  | _ => false
  end.

(** *** White space

    [WhiteSpace] and [LineTerminator] code points; the same set is matched
    by the regular-expression class [\s]. *)
Definition is_white_space (c : code_unit) : bool :=
  ((c =? 9) || (c =? 10) || (c =? 11) || (c =? 12) || (c =? 13) || (c =? 32)
   || (c =? 160) || (c =? 5760) || ((8192 <=? c) && (c <=? 8202))
   || (c =? 8232) || (c =? 8233) || (c =? 8239) || (c =? 8287)
   || (c =? 12288) || (c =? 65279))%N.

Fixpoint trim_start (s : jsstring) : jsstring :=
  match s with
  | c :: rest => if is_white_space c then trim_start rest else s
  | [] => []
  end.

Definition trim (s : jsstring) : jsstring :=
  rev (trim_start (rev (trim_start s))).

(** *** [Number(s)] on a string: StringToNumber *)

Definition digit_value (radix : N) (c : code_unit) : option Z :=
  let v :=
    (if (48 <=? c) && (c <=? 57) then Some (c - 48)
     else if (97 <=? c) && (c <=? 122) then Some (c - 87)
     else if (65 <=? c) && (c <=? 90) then Some (c - 55)
     else None)%N in
  match v with
  | Some d => if (d <? radix)%N then Some (Z.of_N d) else None
  | None => None
  end.

(** Longest prefix of digits of [s] in the given radix: the number they
    denote after the accumulator, how many there are, and the rest. *)
Fixpoint take_digits (radix : N) (s : jsstring) (acc : Z) (n : Z)
  : Z * Z * jsstring :=
  match s with
  | c :: rest =>
      match digit_value radix c with
      | Some d => take_digits radix rest (acc * Z.of_N radix + d) (n + 1)
      | None => (acc, n, s)
      end
  | [] => (acc, n, [])
  end.

(** The double nearest to [m * 10 ^ e10] (ties to even), [m >= 0]. Values
    far beyond the range of doubles are cut off before any power is
    computed: below [2 ^ -1075] the result is zero, from [2 ^ 1024] on it is
    infinite. *)
Definition decimal_to_float (neg : bool) (m e10 : Z) : float :=
  SF2Prim
    (if (m <=? 0)%Z then S754_zero neg
     else if (0 <=? e10)%Z then
       if (1024 <=? Z.log2 m + 3 * e10)%Z then S754_infinity neg
       else binary_normalize prec emax
              (if neg then - (m * 10 ^ e10) else m * 10 ^ e10)%Z 0%Z neg
     else if (Z.log2 m + 1 + 3 * e10 <? -1075)%Z then S754_zero neg
     else
       let d := (10 ^ (- e10))%Z in
       let sh := Z.max 0 (64 + Z.log2 d - Z.log2 m)%Z in
       let n := Z.shiftl m sh in
       let q := (n / d)%Z in
       let r := (n mod d)%Z in
       let loc :=
         if (r =? 0)%Z then loc_Exact else loc_Inexact (Z.compare (2 * r) d) in
       binary_round_aux prec emax neg q (- sh)%Z loc).

Definition integer_to_float (m : Z) : float := decimal_to_float false m 0.

(** [StrUnsignedDecimalLiteral]: [Infinity], or digits with an optional
    fraction and an optional exponent, the whole string. *)
Definition parse_unsigned_decimal (neg : bool) (s : jsstring) : option float :=
  if jsstring_eqb s (lit "Infinity")
  then Some (if neg then neg_infinity else infinity)
  else
    let '(ip, ni, r1) := take_digits 10 s 0 0 in
    let '(m, nf, r2) :=
      match r1 with
      | 46%N :: r => take_digits 10 r ip 0
      | _ => (ip, 0%Z, r1)
      end in
    if (ni + nf =? 0)%Z then None
    else
      match r2 with
      | [] => Some (decimal_to_float neg m (- nf))
      | c :: r3 =>
          if ((c =? 101) || (c =? 69))%N then
            let '(eneg, r4) :=
              match r3 with
              | 45%N :: r => (true, r)
              | 43%N :: r => (false, r)
              | _ => (false, r3)
              end in
            match take_digits 10 r4 0 0 with
            | (ev, ne, []) =>
                if (ne =? 0)%Z then None
                else Some (decimal_to_float neg m
                             ((if eneg then - ev else ev) - nf))
            | _ => None
            end
          else None
      end.

Definition parse_radix (radix : N) (s : jsstring) : option float :=
  match take_digits radix s 0 0 with
  | (v, n, []) => if (n =? 0)%Z then None else Some (integer_to_float v)
  | _ => None
  end.

(** [StringToNumber]: white space is trimmed, the empty string is [+0],
    anything that is not a [StringNumericLiteral] is [NaN]. *)
Definition StringToNumber (s : jsstring) : float :=
  let t := trim s in
  let parsed :=
    match t with
    | [] => Some zero
    | 48%N :: c :: rest =>
        if ((c =? 120) || (c =? 88))%N then parse_radix 16 rest
        else if ((c =? 111) || (c =? 79))%N then parse_radix 8 rest
        else if ((c =? 98) || (c =? 66))%N then parse_radix 2 rest
        else parse_unsigned_decimal false t
    | 43%N :: rest => parse_unsigned_decimal false rest
    | 45%N :: rest => parse_unsigned_decimal true rest
    | _ => parse_unsigned_decimal false t
    end in
  match parsed with
  | Some x => x
  | None => nan
  end.

(** [Number(id)] for a string [id]. *)
Definition Number_of_string (s : jsstring) : JsValue := Num (StringToNumber s).

(** *** Strings *)

Definition ch (a : ascii) : code_unit := N_of_ascii a.

(** [s.split(sep)] for a one-character separator: the pieces between the
    occurrences of [sep], never an empty array. *)
Fixpoint String_split (sep : code_unit) (s : jsstring) : list jsstring :=
  match s with
  | [] => [[]]
  | c :: rest =>
      if (c =? sep)%N then [] :: String_split sep rest
      else
        match String_split sep rest with
        | piece :: pieces => (c :: piece) :: pieces
        | [] => [[c]]
        end
  end.

(** Decimal digits of a number, most significant first. *)
Definition index_string (n : N) : jsstring :=
  lit (NilEmpty.string_of_uint (N.to_uint n)).

(** An array index is the canonical decimal form of an integer below
    [2 ^ 32 - 1]. *)
Definition array_index (k : jsstring) : option N :=
  match take_digits 10 k 0 0 with
  | (v, n, []) =>
      if (0 <? n)%Z && (v <? 4294967295)%Z
         && jsstring_eqb (index_string (Z.to_N v)) k
      then Some (Z.to_N v) else None
  | _ => None
  end.

(** *** Objects: own keys, property access, [for ... in] *)

Fixpoint indices (from : N) (n : nat) : list jsstring :=
  match n with
  | O => []
  | S n' => index_string from :: indices (from + 1) n'
  end.

Fixpoint insert_index (k : N * jsstring) (l : list (N * jsstring))
  : list (N * jsstring) :=
  match l with
  | [] => [k]
  | h :: t => if (fst k <? fst h)%N then k :: l else h :: insert_index k t
  end.

(** Own property keys of an object in the order the language fixes: array
    indices in ascending order, then the other keys in creation order. *)
Definition ordered_keys (keys : list jsstring) : list jsstring :=
  let idx :=
    fold_right
      (fun k acc =>
         match array_index k with Some i => insert_index (i, k) acc | None => acc end)
      [] keys in
  let named :=
    filter (fun k => match array_index k with Some _ => false | None => true end)
      keys in
  List.map snd idx ++ named.

Definition own_keys (v : JsValue) : list jsstring :=
  match v with
  | Str s => indices 0 (List.length s)
  | Arr items => indices 0 (List.length items)
  | Obj props => ordered_keys (List.map fst props)
  | _ => []
  end.

(** [Object.keys(v)]; [None] is the TypeError raised on [undefined] and
    [null]. *)
Definition Object_keys (v : JsValue) : option (list jsstring) :=
  match v with
  | Undefined | Null => None
  | _ => Some (own_keys v)
  end.

(** Keys visited by [for (let n in v)]: none for [undefined], [null] and the
    other primitives except strings. *)
Definition for_in_keys (v : JsValue) : list jsstring := own_keys v.

Fixpoint lookup (k : jsstring) (props : list (jsstring * JsValue))
  : option JsValue :=
  match props with
  | [] => None
  | (k', v) :: rest => if jsstring_eqb k' k then Some v else lookup k rest
  end.

Definition length_value (n : nat) : JsValue :=
  Num (integer_to_float (Z.of_nat n)).

(** [v[k]]; [None] is the TypeError raised on [undefined] and [null], an
    absent property reads [undefined]. *)
Definition get_prop (v : JsValue) (k : jsstring) : option JsValue :=
  match v with
  | Undefined | Null => None
  | Bool _ | Num _ => Some Undefined
  | Str s =>
      Some match array_index k with
           | Some i =>
               match nth_error s (N.to_nat i) with
               | Some c => Str [c]
               | None => Undefined
               end
           | None =>
               if jsstring_eqb k (lit "length") then length_value (List.length s)
               else Undefined
           end
  | Arr items =>
      Some match array_index k with
           | Some i =>
               match nth_error items (N.to_nat i) with
               | Some x => x
               | None => Undefined
               end
           | None =>
               if jsstring_eqb k (lit "length")
               then length_value (List.length items)
               else Undefined
           end
  | Obj props =>
      Some match lookup k props with
           | Some x => x
           | None => Undefined
           end
  end.

(** [keys.includes(k)] on an array of strings. *)
Definition includes (keys : list jsstring) (k : jsstring) : bool :=
  existsb (jsstring_eqb k) keys.

End Js.

(** ** Regular expressions *)

Module Regex.
Import Js.

Inductive regex : Type :=
| Void
| Eps
| Any
| Class (ranges : list (code_unit * code_unit))
| Seq (r1 r2 : regex)
| Alt (r1 r2 : regex)
| Star (r : regex).

Definition in_class (ranges : list (code_unit * code_unit)) (c : code_unit)
  : bool :=
  existsb (fun r => (fst r <=? c)%N && (c <=? snd r)%N) ranges.

Fixpoint nullable (r : regex) : bool :=
  match r with
  | Void => false
  | Eps => true
  | Any => false
  | Class _ => false
  | Seq r1 r2 => nullable r1 && nullable r2
  | Alt r1 r2 => nullable r1 || nullable r2
  | Star _ => true
  end.

Definition seq (r1 r2 : regex) : regex :=
  match r1, r2 with
  | Void, _ => Void
  | _, Void => Void
  | Eps, _ => r2
  | _, _ => Seq r1 r2
  end.

Definition alt (r1 r2 : regex) : regex :=
  match r1, r2 with
  | Void, _ => r2
  | _, Void => r1
  | _, _ => Alt r1 r2
  end.

(** Brzozowski derivative: what is left to match after reading [c]. *)
Fixpoint deriv (c : code_unit) (r : regex) : regex :=
  match r with
  | Void => Void
  | Eps => Void
  | Any => Eps
  | Class ranges => if in_class ranges c then Eps else Void
  | Seq r1 r2 =>
      alt (seq (deriv c r1) r2) (if nullable r1 then deriv c r2 else Void)
  | Alt r1 r2 => alt (deriv c r1) (deriv c r2)
  | Star r1 => seq (deriv c r1) (Star r1)
  end.

Definition matches (r : regex) (s : jsstring) : bool :=
  nullable (fold_left (fun r c => deriv c r) s r).

(** States from which every continuation is accepted. *)
Definition accepting (r : regex) : Prop :=
  r = Star Any \/ exists x, r = Alt x (Star Any).

(** [r+] *)
Definition Plus (r : regex) : regex := Seq r (Star r).

(** [r{lo,hi}] with [hi = lo + extra] *)
Fixpoint Optional (r : regex) (extra : nat) : regex :=
  match extra with
  | O => Eps
  | S n => Alt Eps (Seq r (Optional r n))
  end.

Fixpoint Repeat (r : regex) (lo extra : nat) : regex :=
  match lo with
  | O => Optional r extra
  | S n => Seq r (Repeat r n extra)
  end.

(** A pattern with its anchors: [^] and [$] (no [m] flag). *)
Record RegExp := {
  body : regex;
  from_start : bool;
  to_end : bool
}.

Definition test (re : RegExp) (s : jsstring) : bool :=
  matches
    (Seq (if from_start re then Eps else Star Any)
       (Seq (body re) (if to_end re then Eps else Star Any)))
    s.

(** [s.match(re)] yields an array when there is a match and [null]
    otherwise; the handlers only test the result for truthiness. *)
Definition String_match (s : jsstring) (re : RegExp) : bool := test re s.

Definition one (a : ascii) : code_unit * code_unit := (ch a, ch a).
Definition rng (a b : ascii) : code_unit * code_unit := (ch a, ch b).
Definition chars (s : string) : list (code_unit * code_unit) :=
  List.map one (list_ascii_of_string s).

(** [\s] *)
Definition white_space_class : regex :=
  Class [(9, 13); (32, 32); (160, 160); (5760, 5760); (8192, 8202);
         (8232, 8233); (8239, 8239); (8287, 8287); (12288, 12288);
         (65279, 65279)]%N.

End Regex.


(** ** The relational store behind the models *)

Module Orm.
Import Js.

(** Modelled from the spec: the [UserAuthority] enumeration of
    [models/enums]; [BOTH] is only used by route guards. *)
Inductive UserAuthority := USER | ADMIN | BOTH.

Inductive LockerStatus := occupied | unoccupied.

(** Modelled from the spec: the tables of [models] (Users, Stations,
    Lockers, Posts, Comments) with their columns. Every table but Posts
    carries the soft-delete marker [deletedAt]; time stamps are instants of
    a clock read as integers. *)
Record User := {
  user_id : Z;
  email : jsstring;
  password : jsstring;
  authority : UserAuthority;
  user_createdAt : Z;
  user_updatedAt : Z;
  user_deletedAt : option Z
}.

Record Station := {
  station_id : Z;
  name : jsstring;
  latitude : float;
  longitude : float;
  station_createdAt : Z;
  station_updatedAt : Z;
  station_deletedAt : option Z
}.

Record Locker := {
  locker_id : Z;
  stationId : Z;
  userId : option Z;
  status : LockerStatus;
  startDate : option Z;
  endDate : option Z;
  locker_createdAt : Z;
  locker_updatedAt : Z;
  locker_deletedAt : option Z
}.

Record Post := {
  post_id : Z;
  post_userId : Z;
  title : option jsstring;
  content : option jsstring;
  post_createdAt : Z;
  post_updatedAt : Z
}.

Record Comment := {
  comment_id : Z;
  postId : Z;
  comment_content : jsstring;
  comment_createdAt : Z;
  comment_updatedAt : Z;
  comment_deletedAt : option Z
}.

Record Store := {
  users : list User;
  stations : list Station;
  lockers : list Locker;
  posts : list Post;
  comments : list Comment
}.

Definition with_users (f : list User -> list User) (s : Store) : Store :=
  {| users := f (users s); stations := stations s; lockers := lockers s;
     posts := posts s; comments := comments s |}.

Definition with_stations (f : list Station -> list Station) (s : Store)
  : Store :=
  {| users := users s; stations := f (stations s); lockers := lockers s;
     posts := posts s; comments := comments s |}.

Definition with_lockers (f : list Locker -> list Locker) (s : Store) : Store :=
  {| users := users s; stations := stations s; lockers := f (lockers s);
     posts := posts s; comments := comments s |}.

Definition with_posts (f : list Post -> list Post) (s : Store) : Store :=
  {| users := users s; stations := stations s; lockers := lockers s;
     posts := f (posts s); comments := comments s |}.

Definition with_comments (f : list Comment -> list Comment) (s : Store)
  : Store :=
  {| users := users s; stations := stations s; lockers := lockers s;
     posts := posts s; comments := f (comments s) |}.

(** A paranoid model: rows are marked deleted instead of removed, and the
    default scope of every query leaves the marked rows out. *)
Class Paranoid (R : Type) := {
  deletedAt : R -> option Z;
  set_deletedAt : option Z -> R -> R;
  deletedAt_set : forall d r, deletedAt (set_deletedAt d r) = d
}.

#[export] Instance Paranoid_User : Paranoid User := {
  deletedAt := user_deletedAt;
  set_deletedAt d r :=
    {| user_id := user_id r; email := email r; password := password r;
       authority := authority r; user_createdAt := user_createdAt r;
       user_updatedAt := user_updatedAt r; user_deletedAt := d |};
  deletedAt_set := fun _ _ => eq_refl
}.

#[export] Instance Paranoid_Station : Paranoid Station := {
  deletedAt := station_deletedAt;
  set_deletedAt d r :=
    {| station_id := station_id r; name := name r; latitude := latitude r;
       longitude := longitude r; station_createdAt := station_createdAt r;
       station_updatedAt := station_updatedAt r; station_deletedAt := d |};
  deletedAt_set := fun _ _ => eq_refl
}.

#[export] Instance Paranoid_Locker : Paranoid Locker := {
  deletedAt := locker_deletedAt;
  set_deletedAt d r :=
    {| locker_id := locker_id r; stationId := stationId r; userId := userId r;
       status := status r; startDate := startDate r; endDate := endDate r;
       locker_createdAt := locker_createdAt r;
       locker_updatedAt := locker_updatedAt r; locker_deletedAt := d |};
  deletedAt_set := fun _ _ => eq_refl
}.

#[export] Instance Paranoid_Comment : Paranoid Comment := {
  deletedAt := comment_deletedAt;
  set_deletedAt d r :=
    {| comment_id := comment_id r; postId := postId r;
       comment_content := comment_content r;
       comment_createdAt := comment_createdAt r;
       comment_updatedAt := comment_updatedAt r; comment_deletedAt := d |};
  deletedAt_set := fun _ _ => eq_refl
}.

Section Model.
Context {R : Type} `{Paranoid R}.

(** Active: not soft-deleted. *)
Definition active (r : R) : bool :=
  match deletedAt r with
  | None => true
  | Some _ => false
  end.

(** [Model.findOne({ where })] and [Model.findByPk(id)]: the first active
    row that satisfies the condition. *)
Definition findOne (cond : R -> bool) (table : list R) : option R :=
  find (fun r => active r && cond r) table.

(** [Model.findAll({ where })] *)
Definition findAll (cond : R -> bool) (table : list R) : list R :=
  filter (fun r => active r && cond r) table.

(** [Model.destroy({ where })]: marks the active rows that satisfy the
    condition. *)
Definition destroy (now : Z) (cond : R -> bool) (table : list R) : list R :=
  List.map
    (fun r => if active r && cond r then set_deletedAt (Some now) r else r)
    table.

(** [Model.restore({ where })]: clears the marker of the rows that satisfy
    the condition. *)
Definition restore (cond : R -> bool) (table : list R) : list R :=
  List.map (fun r => if cond r then set_deletedAt None r else r) table.

End Model.

(** Auto-increment primary key. *)
Definition next_id (ids : list Z) : Z := 1 + fold_right Z.max 0%Z ids.

End Orm.

(** ** Handlers as computations over the store *)

Module Handler.
Import Js Orm.

(** The text of an error, either fixed or built around a station name. *)
Inductive Message :=
| Text (s : string)
| NameText (name : jsstring) (s : string).

Inductive Error :=
| HttpException (statusCode : nat) (message : Message)
| TypeError (message : string)
| ReferenceError (message : string)
| UniqueConstraintError (message : string)
| ExternalError (message : string).

Inductive Result (A : Type) :=
| Ok (a : A)
| Throw (e : Error).
Arguments Throw {A} e.

(** A run yields a value or a thrown error, the store it ends in and the
    store after each of its writes, oldest first. *)
Record Run (A : Type) := {
  result : Result A;
  final : Store;
  writes : list Store
}.

Definition M (A : Type) : Type := Store -> Run A.

Definition ret {A} (a : A) : M A :=
  fun s => {| result := Ok a; final := s; writes := [] |}.

Definition throw {A} (e : Error) : M A :=
  fun s => {| result := Throw e; final := s; writes := [] |}.

Definition bind {A B} (m : M A) (f : A -> M B) : M B :=
  fun s =>
    let r := m s in
    match result r with
    | Ok a =>
        let r' := f a (final r) in
        {| result := result r'; final := final r';
           writes := writes r ++ writes r' |}
    | Throw e => {| result := Throw e; final := final r; writes := writes r |}
    end.

(** A read of the store. *)
Definition query {A} (f : Store -> A) : M A :=
  fun s => {| result := Ok (f s); final := s; writes := [] |}.

(** A write to the store. *)
Definition update (f : Store -> Store) : M unit :=
  fun s => {| result := Ok tt; final := f s; writes := [f s] |}.

Declare Scope handler_scope.
Delimit Scope handler_scope with handler.
Notation "x <- m ;; k" := (bind m (fun x => k))
  (at level 61, m at next level, right associativity) : handler_scope.
Notation "m ;;; k" := (bind m (fun _ => k))
  (at level 61, right associativity) : handler_scope.
Open Scope handler_scope.

Definition bad_request {A} (text : string) : M A :=
  throw (HttpException 400 (Text text)).

(** Reading an identifier that the module neither declares nor requires. *)
Definition unbound {A} (identifier : string) : M A :=
  throw (ReferenceError (identifier ++ " is not defined")).

(** Modelled from the spec: a write that the storage layer refuses when the
    unique column of the table already holds the value, in a row that is
    soft-deleted as well as in an active one. *)
Definition unless_taken (taken : Store -> bool) (column : string) (m : M unit)
  : M unit :=
  fun s => if taken s then throw (UniqueConstraintError column) s else m s.

(** [sequelize.transaction(async () => { ... })]: the callback runs as it
    stands. In the handlers below nothing can throw after the first write of
    a callback, so committing and rolling back never differ. *)
Definition transaction {A} (m : M A) : M A := m.

(** Response bodies. *)
Inductive Body :=
| NoBody
| UserBody (u : option (Z * jsstring))
| UserLockersBody (u : Z * jsstring) (userLockerInfo : list Locker)
| PostBody (p : Post)
| CommentBody (c : option Comment)
| StationsBody (newStations : list Station)
| StationMetaBody (st : Station) (lockerInfo : list Locker)
    (temperature humidity : float)
| StationLockersBody (st : option Station) (restoredLockers : list Locker).

(** What the [try] block did with [res]. *)
Inductive Reply :=
| Send (status : nat) (b : Body)
| NoReply.

(** [res.status(code).send(body)] *)
Definition send (code : nat) (b : Body) : M Reply := ret (Send code b).

(** How a request leaves the handler: a response was sent, an error was
    passed to [next], or neither happened. *)
Inductive Outcome :=
| Sent (status : nat) (b : Body)
| Forwarded (e : Error)
| Pending.

Record Response := {
  outcome : Outcome;
  store : Store;
  trace : list Store
}.

(** [try { ... } catch (err) { next(err); }] *)
Definition handle (m : M Reply) (s : Store) : Response :=
  let r := m s in
  {| outcome :=
       match result r with
       | Ok (Send code b) => Sent code b
       | Ok NoReply => Pending
       | Throw e => Forwarded e
       end;
     store := final r;
     trace := writes r |}.

(** Modelled from the spec: the central error responder, which answers an
    [HttpException] with the status code it carries. Other errors are not
    classified. *)
Definition status_of (o : Outcome) : option nat :=
  match o with
  | Sent code _ => Some code
  | Forwarded (HttpException code _) => Some code
  | Forwarded _ => None
  | Pending => None
  end.

(** The request was answered with status 400 and nothing was written. *)
Definition rejected_unchanged (r : Response) (s : Store) : Prop :=
  status_of (outcome r) = Some 400 /\ store r = s /\ trace r = [].

(** The run threw an [HttpException] of status 400 and wrote nothing. *)
Definition refused {A} (r : Run A) (s : Store) : Prop :=
  (exists msg, result r = Throw (HttpException 400 msg)) /\
  final r = s /\ writes r = [].

(** Result of [checkRequiredParameters]. *)
Record CheckResult := {
  validation : bool;
  statusCode : nat;
  check_message : string
}.

(** What the handlers take from outside the routes: the storage layer's
    reading of a route parameter as an integer key ([None]: no row has that
    key), the helper functions of [functions] for the modules that require
    them, the password hash, and the clock. *)
Record Env := {
  key_of : jsstring -> option Z;
  checkRequiredParameters : list JsValue -> CheckResult;
  checkWeather : Station -> option (float * float);
  bcrypt_hash : jsstring -> nat -> jsstring;
  now : Z
}.

(** [where: { column: id }] for a route parameter [id] and an integer
    column. *)
Definition where_key (env : Env) (id : jsstring) (k : Z) : bool :=
  match key_of env id with
  | Some k' => (k =? k')%Z
  | None => false
  end.

Definition where_key_opt (env : Env) (id : jsstring) (k : option Z) : bool :=
  match k with
  | Some k' => where_key env id k'
  | None => false
  end.

End Handler.

(** ** [POST /auth/sign-up] *)

Module Auth.
Import Js Regex Orm Handler.

(** The global pattern [specialCharacters]: one character out of the
    class of braces, brackets, slash, question mark, comma, semicolon,
    colon, bar, parentheses, star, tilde, backquote, exclamation mark,
    caret, minus, plus, angle brackets, hash, dollar, percent, ampersand,
    backslash, equals sign, and the single and the double quote (code 34,
    the last range). The dot and the at sign are not in it. *)
Definition special_set : list (code_unit * code_unit) :=
  chars "{}[]/?,;:|)*~`!^-+<>#$%&\=('" ++ [(34, 34)%N].

Definition specialCharacters : RegExp :=
  {| body := Class special_set; from_start := false; to_end := false |}.

(** [/\s/g] *)
Definition emptySpace : RegExp :=
  {| body := white_space_class; from_start := false; to_end := false |}.

(** [/^[0-9,a-zA-Z]/] *)
Definition start_set : list (code_unit * code_unit) :=
  [rng "0" "9"; one ","; rng "a" "z"; rng "A" "Z"].

Definition startEnglishNumber : RegExp :=
  {| body := Class start_set; from_start := true; to_end := false |}.

Definition domain_label : regex :=
  Plus (Class [rng "0" "9"; rng "a" "z"; rng "A" "Z"; one "_"; one "-"]).

(** [/^([0-9a-zA-Z_-]+)(\.[0-9a-zA-Z_-]+){1,5}$/] *)
Definition emailAfterAtPattern : RegExp :=
  {| body := Seq domain_label (Repeat (Seq (Class [one "."]) domain_label) 1 4);
     from_start := true; to_end := true |}.

Definition passwordLengthMin : nat := 8.
Definition passwordLengthMax : nat := 15.
Definition saltRounds : nat := 10.

Definition where_email (e : jsstring) (u : User) : bool :=
  jsstring_eqb (email u) e.

(** Modelled from the spec: the email of a user is unique at the storage
    layer. Some row of the table, deleted or not, holds the email. *)
Definition email_taken (e : jsstring) (s : Store) : bool :=
  existsb (where_email e) (users s).

(** The row that [User.create({ email, password })] adds. *)
Definition User_create (env : Env) (e hashed : jsstring) (s : Store) : Store :=
  with_users
    (fun table =>
       table ++
       [{| user_id := next_id (List.map user_id table); email := e;
           password := hashed; authority := USER;
           user_createdAt := now env; user_updatedAt := now env;
           user_deletedAt := None |}])
    s.

(** The handler of [router.post('/sign-up')]. The body fields are strings
    when present, as the request schema has them; [None] is an absent
    field. *)
Definition sign_up (env : Env) (email password : option jsstring) : M Reply :=
  match email with
  | None => throw (TypeError "Cannot read properties of undefined (reading 'split')")
  | Some email =>
      let emailAfterAt := nth_error (String_split (ch "@") email) 1 in
      transaction (
        emailDuplicationCheck <- query (fun s => findOne (where_email email) (users s)) ;;
        match emailDuplicationCheck with
        | Some _ => bad_request "입력하신 이메일은 이미 사용 중입니다."
        | None =>
        if String_match email specialCharacters
        then bad_request "입력하신 이메일에 특수문자가 있습니다."
        else if String_match email emptySpace
        then bad_request "입력하신 이메일에 공백이 있습니다."
        else if negb (String_match email startEnglishNumber)
        then bad_request "이메일의 시작은 숫자나 영어로 되어야 합니다."
        else
        match emailAfterAt with
        | None => throw (TypeError "Cannot read properties of undefined (reading 'match')")
        | Some emailAfterAt =>
        if negb (String_match emailAfterAt emailAfterAtPattern)
        then bad_request "입력한 이메일의 도메인 부분을 다시 확인 해주세요."
        else
        match password with
        | None => throw (TypeError "Cannot read properties of undefined (reading 'length')")
        | Some password =>
        if (List.length password <? passwordLengthMin)
           || (passwordLengthMax <? List.length password)
        then bad_request "비밀번호는 8자리이상 15이하여야 합니다."
        else if String_match password emptySpace
        then bad_request "비밀번호에 공백이 있습니다."
        else
          let hashedPassword := bcrypt_hash env password saltRounds in
          unless_taken (email_taken email) "users.email"
            (update (User_create env email hashedPassword)) ;;;
          newUser <- query (fun s => findOne (where_email email) (users s)) ;;
          send 201 (UserBody (option_map (fun u => (user_id u, Orm.email u)) newUser))
        end
        end
        end)
  end.

End Auth.

(** ** [/posts] *)

Module Posts.
Import Js Orm Handler.

(** [Post.create({ title, content, userId })] *)
Definition new_post (env : Env) (title content : option jsstring) (userId : Z)
  (table : list Post) : Post :=
  {| post_id := next_id (List.map post_id table); post_userId := userId;
     title := title; content := content;
     post_createdAt := now env; post_updatedAt := now env |}.

(** [User.findOne({ where: { email } })] *)
Definition find_user_by_email (email : jsstring) (s : Store) : option User :=
  findOne (Auth.where_email email) (users s).

(** The handler of [router.post('/')]. The email is a string, as the
    request schema has it (what the query does with an absent one is the
    affair of the storage layer); the title and the content are strings when
    present. *)
Definition posts_post (env : Env) (email : jsstring)
  (title content : option jsstring) : M Reply :=
  user <- query (find_user_by_email email) ;;
  match user with
  | None => bad_request "해당하는 이메일은 등록되어 있지 않습니다."
  | Some user =>
      transaction (
        let userId := user_id user in
        newPost <- query (fun s => new_post env title content userId (posts s)) ;;
        update (with_posts (fun table => table ++ [newPost])) ;;;
        send 201 (PostBody newPost))
  end.

End Posts.

(** ** [/users] *)

Module Users.
Import Js Orm Handler.

(** The handler of [router.get('/:id')]. *)
Definition users_get (env : Env) (id : jsstring) : M Reply :=
  if negb (ToBoolean (Str id))
  then bad_request "id 값을 입력해주세요."
  else if negb (Number_isInteger (Str id))
  then bad_request "user 의 id 는 숫자를 입력해주세요."
  else
    user <- query (fun s => findOne (fun u => where_key env id (user_id u)) (users s)) ;;
    match user with
    | None => bad_request "없는 유저 입니다."
    | Some user =>
        userLocker <- query (fun s =>
          findAll (fun l => where_key_opt env id (userId l)) (lockers s)) ;;
        send 200 (UserLockersBody (user_id user, email user) userLocker)
    end.

(** The handler of [router.delete('/:id')]. *)
Definition users_delete (env : Env) (id : jsstring) : M Reply :=
  let result := checkRequiredParameters env [Str id] in
  if Bool.eqb (validation result) false
  then bad_request "삭제할 user 의 id 를 적어주세요."
  else if negb (Number_isInteger (Str id))
  then bad_request "user id 는 숫자로 입력해주세요."
  else
    update (with_users (destroy (now env) (fun u => where_key env id (user_id u)))) ;;;
    send 204 NoBody.

(** The handler of [router.patch('/:id')]: restores a deleted user. Its
    [try] block ends without a response. *)
Definition users_restore (env : Env) (id : jsstring) : M Reply :=
  let result := checkRequiredParameters env [Str id] in
  if Bool.eqb (validation result) false
  then bad_request "복구할 user 의 id 를 입력해주세요."
  else if negb (Number_isInteger (Str id))
  then bad_request "복구할 user 의  id 는 숫자로 입력해주세요."
  else
    user <- query (fun s => findOne (fun u => where_key env id (user_id u)) (users s)) ;;
    match user with
    | Some _ => bad_request "삭제된 user 가 아닙니다."
    | None =>
        update (with_users (restore (fun u => where_key env id (user_id u)))) ;;;
        restoredUser <- query (fun s =>
          findOne (fun u => where_key env id (user_id u)) (users s)) ;;
        ret NoReply
    end.

End Users.

(** ** [/comments] *)

Module Comments.
Import Js Orm Handler.

Definition where_post (k owner : Z) (p : Post) : bool :=
  ((post_id p =? k) && (post_userId p =? owner))%Z.

(** The handler of [router.get('/:id')]; [userAuthor] and [userId] are the
    authority and the id that the token middleware attached to the
    request. *)
Definition comments_get (env : Env) (userAuthor : UserAuthority) (userId : Z)
  (id : jsstring) : M Reply :=
  if negb (ToBoolean (Str id))
  then bad_request "comment 의 id 를 입력해주세요"
  else if negb (Number_isInteger (Str id))
  then bad_request " id 는 숫자를 입력해주세요."
  else
    comment <- query (fun s =>
      findOne (fun c => where_key env id (comment_id c)) (comments s)) ;;
    match comment with
    | None => bad_request "해당하는 댓글이 없습니다."
    | Some comment =>
        match userAuthor with
        | USER =>
            post <- query (fun s => find (where_post (postId comment) userId) (posts s)) ;;
            match post with
            | None =>
                throw (HttpException 401 (Text "해당 댓글에 대한 접근 권한이 없습니다."))
            | Some _ => ret tt
            end
        | _ => ret tt
        end ;;;
        send 200 (CommentBody (Some comment))
    end.

(** The handler of [router.delete('/:id')]. *)
Definition comments_delete (env : Env) (id : jsstring) : M Reply :=
  if negb (ToBoolean (Str id))
  then bad_request "comment 의 id 를 입력해주세요"
  else if negb (Number_isInteger (Str id))
  then bad_request " id 는 숫자를 입력해주세요."
  else
    comment <- query (fun s =>
      findOne (fun c => where_key env id (comment_id c)) (comments s)) ;;
    match comment with
    | None => bad_request "존재하지 않는 댓글입니다."
    | Some _ =>
        update (with_comments
                  (destroy (now env) (fun c => where_key env id (comment_id c)))) ;;;
        send 204 NoBody
    end.

(** The handler of [router.patch('/restore/:id')]. *)
Definition comments_restore (env : Env) (id : jsstring) : M Reply :=
  if negb (ToBoolean (Str id))
  then bad_request "comment 의 id 를 입력해주세요"
  else if negb (ToBoolean (Number_of_string id))
  then bad_request " id 는 숫자를 입력해주세요."
  else
    comment <- query (fun s =>
      findOne (fun c => where_key env id (comment_id c)) (comments s)) ;;
    match comment with
    | Some _ => bad_request "삭제된 comment 가 아닙니다."
    | None =>
        update (with_comments (restore (fun c => where_key env id (comment_id c)))) ;;;
        restoredComment <- query (fun s =>
          findOne (fun c => where_key env id (comment_id c)) (comments s)) ;;
        send 200 (CommentBody restoredComment)
    end.

End Comments.

(** ** [/stations]

    The routes are embedded in their current form, the one with the checks
    on the batch and deletion by id. *)

Module Stations.
Import Js Orm Handler.

Definition requiredKeys : list jsstring :=
  [lit "name"; lit "latitude"; lit "longitude"].

Definition where_name (n : jsstring) (st : Station) : bool :=
  jsstring_eqb (name st) n.

(** Modelled from the spec: the name of a station is unique at the storage
    layer. Some row of the table, deleted or not, holds the name. *)
Definition name_taken (n : jsstring) (s : Store) : bool :=
  existsb (where_name n) (stations s).

(** The row that [Station.create({ name, latitude, longitude })] adds. *)
Definition new_station (env : Env) (name : jsstring) (latitude longitude : float)
  (table : list Station) : Station :=
  {| station_id := next_id (List.map station_id table); name := name;
     latitude := latitude; longitude := longitude;
     station_createdAt := now env; station_updatedAt := now env;
     station_deletedAt := None |}.

Definition property (v : JsValue) (k : jsstring) : M JsValue :=
  match get_prop v k with
  | Some x => ret x
  | None => throw (TypeError "Cannot read properties of undefined or null")
  end.

(** One turn of the loop of [router.post('/')]: the checks on [data[n]] and
    the creation of its station. *)
Definition stations_post_item (env : Env) (data : JsValue) (n : jsstring)
  : M Station :=
  item <- property data n ;;
  match Object_keys item with
  | None => throw (TypeError "Cannot convert undefined or null to object")
  | Some itemKeys =>
  if (List.length itemKeys =? 0)%nat
  then bad_request "입력한 데이터가 비어 있습니다."
  else if negb (TypeTag_eqb (typeof item) TObject)
          || match item with Null => true | _ => false end
  then bad_request "입력한 데이터의 속성은 objects 이여야 합니다."
  else if negb (forallb (includes itemKeys) requiredKeys)
          || negb (List.length itemKeys =? List.length requiredKeys)%nat
  then bad_request "data의 key 값이 잘 못되었습니다."
  else
    name <- property item (lit "name") ;;
    latitude <- property item (lit "latitude") ;;
    longitude <- property item (lit "longitude") ;;
    match name with
    | Str name =>
    match latitude with
    | Num latitude =>
    if negb ((-90 <? latitude)%float && (latitude <? 90)%float)
    then bad_request "latitude 는 -90 에서 90 사이의 값을 입력해주세요."
    else
    match longitude with
    | Num longitude =>
    if negb ((-180 <? longitude)%float && (longitude <? 180)%float)
    then bad_request "longitude 는 -180 에서 180 사이의 값을 입력해주세요."
    else
      stationDuplication <- query (fun s => findOne (where_name name) (stations s)) ;;
      match stationDuplication with
      | Some _ =>
          throw (HttpException 400 (NameText name " 은 이미 저장되어 있습니다."))
      | None =>
          station <- query (fun s => new_station env name latitude longitude (stations s)) ;;
          unless_taken (name_taken name) "stations.name"
            (update (with_stations (fun table => table ++ [station]))) ;;;
          ret station
      end
    | _ => bad_request "longitude 는 숫자로 입력해주세요."
    end
    | _ => bad_request "latitude 는 숫자로 입력해주세요."
    end
    | _ => bad_request "name은 문자로 입력해주세요."
    end
  end.

(** [for (let n in data) { ... newStations.push(station); }] *)
Fixpoint stations_post_loop (env : Env) (data : JsValue) (keys : list jsstring)
  (newStations : list Station) : M (list Station) :=
  match keys with
  | [] => ret newStations
  | n :: rest =>
      station <- stations_post_item env data n ;;
      stations_post_loop env data rest (newStations ++ [station])
  end.

(** The handler of [router.post('/')]. *)
Definition stations_post (env : Env) (data : JsValue) : M Reply :=
  if negb (ToBoolean data)
  then bad_request "역을 추가하기 위한 데이터(역명, 경도, 위도) 를 입력해주세요."
  else
    newStations <- stations_post_loop env data (for_in_keys data) [] ;;
    send 201 (StationsBody newStations).

(** The coordinates that the loop refuses: a numeric latitude that is not
    strictly between -90 and 90, or a numeric longitude that is not strictly
    between -180 and 180. *)
Definition out_of_range (item : JsValue) : Prop :=
  (exists x, get_prop item (lit "latitude") = Some (Num x) /\
             ((-90 <? x) && (x <? 90))%float = false) \/
  (exists y, get_prop item (lit "longitude") = Some (Num y) /\
             ((-180 <? y) && (y <? 180))%float = false).

(** [Object.keys] accepts the value: it is neither [null] nor
    [undefined]. *)
Definition has_keys (v : option JsValue) : Prop :=
  v <> None /\ v <> Some Null /\ v <> Some Undefined.

(** The handler of [router.get('/:id')]. *)
Definition stations_get (env : Env) (id : jsstring) : M Reply :=
  if negb (ToBoolean (Str id))
  then bad_request "id 값을 입력해주세요."
  else if negb (Number_isInteger (Str id))
  then bad_request "id 값은 숫자로 입력해주세요"
  else
    station <- query (fun s =>
      findOne (fun st => where_key env id (station_id st)) (stations s)) ;;
    match station with
    | None => bad_request "해당하는 역은 없습니다."
    | Some station =>
        match checkWeather env station with
        | None => throw (ExternalError "weather request failed")
        | Some (temp, humidity) =>
            lockers <- query (fun s =>
              findAll (fun l => where_key env id (stationId l)) (lockers s)) ;;
            send 200 (StationMetaBody station lockers temp humidity)
        end
    end.

(** The handler of [router.delete('/:id')]. *)
Definition stations_delete (env : Env) (id : jsstring) : M Reply :=
  if negb (ToBoolean (Str id))
  then bad_request "id 값을 입력해주세요."
  else
    station <- query (fun s =>
      findOne (fun st => where_key env id (station_id st)) (stations s)) ;;
    match station with
    | None => bad_request "없는 역이름 입니다."
    | Some station =>
        update (with_lockers
                  (destroy (now env) (fun l => (stationId l =? station_id station)%Z))) ;;;
        update (with_stations
                  (destroy (now env) (fun st => where_key env id (station_id st)))) ;;;
        send 204 NoBody
    end.

(** The statements of [router.patch('/restore/:id')] that follow its
    checks: the two restores and the response. *)
Definition restore_station_and_lockers (env : Env) (id : jsstring) : M Reply :=
  update (with_stations (restore (fun st => where_key env id (station_id st)))) ;;;
  update (with_lockers (restore (fun l => where_key env id (stationId l)))) ;;;
  restoredStation <- query (fun s =>
    findOne (fun st => where_key env id (station_id st)) (stations s)) ;;
  restoredLockers <- query (fun s =>
    findAll (fun l => where_key env id (stationId l)) (lockers s)) ;;
  send 200 (StationLockersBody restoredStation restoredLockers).

(** The handler of [router.patch('/restore/:id')]. The stations module
    requires [checkWeather] alone from [functions]: the name
    [checkRequiredParameters] is not bound in it, and reading it throws a
    ReferenceError before anything else is done. *)
Definition stations_restore (env : Env) (id : jsstring) : M Reply :=
  checkRequiredParameters <- unbound "checkRequiredParameters" ;;
  let result : CheckResult := checkRequiredParameters [Str id] in
  if Bool.eqb (validation result) false
  then bad_request "복구할 station 의 id 를 입력해주세요."
  else if negb (Number_isInteger (Str id))
  then bad_request "복구할 station 의  id 는 숫자로 입력해주세요."
  else
    station <- query (fun s =>
      findOne (fun st => where_key env id (station_id st)) (stations s)) ;;
    match station with
    | Some _ => bad_request "삭제된 station 이 아닙니다."
    | None => restore_station_and_lockers env id
    end.

End Stations.

(** ** A concrete environment and concrete stores *)

Module Demo.
Import Js Orm Handler.

(** Route parameters written as canonical decimal numbers denote that key;
    any other text denotes none. *)
Definition decimal_key (id : jsstring) : option Z :=
  option_map Z.of_N (array_index id).

Definition check_present (params : list JsValue) : CheckResult :=
  if forallb ToBoolean params
  then {| validation := true; statusCode := 200; check_message := "" |}
  else {| validation := false; statusCode := 400; check_message := "missing parameter" |}.

Definition env : Env :=
  {| key_of := decimal_key;
     checkRequiredParameters := check_present;
     checkWeather := fun _ => Some (21.5%float, 40%float);
     bcrypt_hash := fun pw rounds => lit "hashed:" ++ pw;
     now := 1000 |}.

Definition empty : Store :=
  {| users := []; stations := []; lockers := []; posts := []; comments := [] |}.

Definition alice : User :=
  {| user_id := 1; email := lit "alice@example.com"; password := lit "hashed:password1";
     authority := USER; user_createdAt := 10; user_updatedAt := 10;
     user_deletedAt := None |}.

Definition seoul (d : option Z) : Station :=
  {| station_id := 1; name := lit "seoul"; latitude := 37.5%float;
     longitude := 126.5%float; station_createdAt := 20;
     station_updatedAt := 20; station_deletedAt := d |}.

Definition locker (k : Z) (d : option Z) : Locker :=
  {| locker_id := k; stationId := 1; userId := None; status := unoccupied;
     startDate := None; endDate := None; locker_createdAt := 30;
     locker_updatedAt := 30; locker_deletedAt := d |}.

Definition question : Post :=
  {| post_id := 1; post_userId := 1; title := Some (lit "hello");
     content := Some (lit "where is my locker"); post_createdAt := 40;
     post_updatedAt := 40 |}.

Definition answer (d : option Z) : Comment :=
  {| comment_id := 1; postId := 1; comment_content := lit "at the station";
     comment_createdAt := 50; comment_updatedAt := 50; comment_deletedAt := d |}.

(** An entry of the batch of [POST /stations]. *)
Definition station_item (n : string) (la lo : float) : JsValue :=
  Obj [(lit "name", Str (lit n)); (lit "latitude", Num la);
       (lit "longitude", Num lo)].

(** Everything active. *)
Definition open_store : Store :=
  {| users := [alice]; stations := [seoul None];
     lockers := [locker 1 None; locker 2 None]; posts := [question];
     comments := [answer None] |}.

(** Station 1, its lockers and comment 1 soft-deleted at instant 500. *)
Definition closed_store : Store :=
  {| users := [alice]; stations := [seoul (Some 500%Z)];
     lockers := [locker 1 (Some 500%Z); locker 2 (Some 500%Z)]; posts := [question];
     comments := [answer (Some 500%Z)] |}.

End Demo.


(** ** The station and locker life cycle *)

Module LifeCycle.
Import Js Orm Handler Stations.

(** No locker is active while a station it belongs to is deleted. *)
Definition station_locker_inv (s : Store) : Prop :=
  forall l st,
    In l (lockers s) -> In st (stations s) ->
    stationId l = station_id st ->
    active l = true -> active st = true.

(** The stores that station deletion and station restoration pass through,
    the ones between two writes of a handler included. The statements after
    the checks of the restore handler count as an operation of their own. *)
Inductive reachable (s0 : Store) : Store -> Prop :=
| reach_start : reachable s0 s0
| reach_delete : forall env id s s',
    reachable s0 s ->
    In s' (trace (handle (stations_delete env id) s)) ->
    reachable s0 s'
| reach_restore : forall env id s s',
    reachable s0 s ->
    In s' (trace (handle (stations_restore env id) s)) ->
    reachable s0 s'
| reach_restore_writes : forall env id s s',
    reachable s0 s ->
    In s' (trace (handle (restore_station_and_lockers env id) s)) ->
    reachable s0 s'.

End LifeCycle.

(** ** Answers of the remaining routes *)

Module Express.
Import Js Orm Handler.

(** How a request leaves a handler whose response body is of type [B]: a
    response was sent, the error was passed to [next], or [next] was called
    without an argument. *)
Inductive Answer (B : Type) :=
| Answered (status : nat) (body : B)
| Failed (e : Error)
| Skipped.
Arguments Failed {B} e.
Arguments Skipped {B}.

Record Exchange (B : Type) := {
  answer : Answer B;
  after : Store;
  journal : list Store
}.

(** [try { ... res.status(code).send(body); } catch (err) { next(err); }] *)
Definition respond {B} (m : M (nat * B)) (s : Store) : Exchange B :=
  let r := m s in
  {| answer :=
       match result r with
       | Ok (code, b) => Answered code b
       | Throw e => Failed e
       end;
     after := final r;
     journal := writes r |}.

(** [try { ... res.status(code).send(body); } catch (err) { next(); }] *)
Definition respond_bare {B} (m : M (nat * B)) (s : Store) : Exchange B :=
  let r := m s in
  {| answer :=
       match result r with
       | Ok (code, b) => Answered code b
       | Throw _ => Skipped
       end;
     after := final r;
     journal := writes r |}.

(** The integer a number denotes, when it denotes one. *)
Definition float_integer (x : float) : option Z :=
  match Prim2SF x with
  | S754_zero _ => Some 0%Z
  | S754_finite sign m e =>
      if float_is_integer x then
        let magnitude :=
          (if 0 <=? e then Zpos m * 2 ^ e else Zpos m / 2 ^ (- e))%Z in
        Some (if sign then (- magnitude)%Z else magnitude)
      else None
  | S754_infinity _ => None
  | S754_nan => None
  end.

(** [where: { column: v }] for a value [v] of the request and an integer
    column. *)
Definition where_number (v : JsValue) (k : Z) : bool :=
  match v with
  | Num x =>
      match float_integer x with
      | Some z => (k =? z)%Z
      | None => false
      end
  | _ => false
  end.

End Express.

(** ** [/comments]: posting and listing *)

Module CommentsRest.
Import Js Orm Handler Express.

(** [content.replace(/ /g, '')] *)
Definition remove_spaces (content : jsstring) : jsstring :=
  filter (fun c => negb (c =? 32)%N) content.

(** [Comment.create({ content, postId })] *)
Definition new_comment (env : Env) (content : jsstring) (postId : Z)
  (table : list Comment) : Comment :=
  {| comment_id := next_id (List.map comment_id table); postId := postId;
     comment_content := content;
     comment_createdAt := now env; comment_updatedAt := now env;
     comment_deletedAt := None |}.

(** The handler of [router.post('/')]. *)
Definition comments_post (env : Env) (postId content : JsValue) : M Reply :=
  if negb (ToBoolean postId) || negb (ToBoolean content)
  then bad_request "postId 와 content를 입력해주세요"
  else if negb (Number_isInteger postId)
  then bad_request "postId 는 숫자로 입력해주세요."
  else
    match content with
    | Str content =>
        if jsstring_eqb (remove_spaces content) []
        then bad_request "content 는 빈공간일 수 없습니다."
        else
          post <- query (fun s => find (fun p => where_number postId (post_id p)) (posts s)) ;;
          match post with
          | None => bad_request "해당 포스트가 없습니다."
          | Some post =>
              transaction (
                newComment <- query (fun s =>
                  new_comment env content (post_id post) (comments s)) ;;
                update (with_comments (fun table => table ++ [newComment])) ;;;
                send 201 (CommentBody (Some newComment)))
          end
    | _ => throw (TypeError "content.replace is not a function")
    end.

(** Result of [pagination(page, limit)]. *)
Record Pagination := {
  offset : Z;
  totalPages : float;
  count : Z
}.

Fixpoint insert_newest (c : Comment) (l : list Comment) : list Comment :=
  match l with
  | [] => [c]
  | h :: t =>
      if (comment_createdAt h <? comment_createdAt c)%Z then c :: l
      else h :: insert_newest c t
  end.

(** [Comment.findAll({ order: [['createdAt', 'DESC']], limit, offset })];
    [None] is the error of the storage layer on a negative limit or
    offset. *)
Definition findAll_page (limit offset : Z) (table : list Comment)
  : option (list Comment) :=
  if ((limit <? 0) || (offset <? 0))%Z then None
  else
    Some (firstn (Z.to_nat limit)
            (skipn (Z.to_nat offset)
               (fold_right insert_newest [] (findAll (fun _ => true) table)))).

(** The handler of [router.get('/')]. [page] and [limit] are the query
    parameters of the request, strings when present; [pagination] is the
    helper of [functions], [Number_toString] the conversion that a template
    literal applies to a number. *)
Definition comments_list (pagination : jsstring -> float -> Pagination)
  (Number_toString : float -> string)
  (page limit : option jsstring) : M (nat * list Comment) :=
  let limit :=
    let n := match limit with
             | Some l => StringToNumber l
             | None => nan
             end in
    if ToBoolean (Num n) then n else 5%float in
  match page with
  | None => bad_request "값을 입력해주세요."
  | Some page =>
      if negb (ToBoolean (Str page)) || negb (ToBoolean (Num limit))
      then bad_request "값을 입력해주세요."
      else if negb (Number_isInteger (Str page))
      then bad_request "page 값은 숫자를 입력해주세요."
      else if negb (Number_isInteger (Num limit))
      then bad_request "limit 값은 숫자를 입력해주세요."
      else
        let pages := pagination page limit in
        if (StringToNumber page <? 1)%float
           || (totalPages pages <? StringToNumber page)%float
        then bad_request ("page 범위는 1부터 "
                          ++ Number_toString (totalPages pages) ++ " 입니다.")
        else
          allComments <- query (fun s =>
            match float_integer limit with
            | Some l => findAll_page l (offset pages) (comments s)
            | None => None
            end) ;;
          match allComments with
          | Some allComments => ret (200, allComments)
          | None => throw (ExternalError "invalid limit or offset")
          end
  end.

End CommentsRest.

(** ** [/posts]: listing *)

Module PostsRest.
Import Js Orm Handler Express.

Fixpoint insert_newest (p : Post) (l : list Post) : list Post :=
  match l with
  | [] => [p]
  | h :: t =>
      if (post_createdAt h <? post_createdAt p)%Z then p :: l
      else h :: insert_newest p t
  end.

(** [Post.findAll({ order: [["createdAt", "DESC"]] })]; posts of the same
    instant keep the order of the table. *)
Definition newest_first (table : list Post) : list Post :=
  fold_right insert_newest [] table.

(** [a] may stand before [b] in a list that is newest first. *)
Definition newer_or_equal (a b : Post) : Prop :=
  (post_createdAt b <= post_createdAt a)%Z.

(** The handler of [router.get('/')]. *)
Definition posts_get : M (nat * list Post) :=
  allPosts <- query (fun s => newest_first (posts s)) ;;
  ret (200, allPosts).

End PostsRest.

(** ** [/stations]: listing *)

Module StationsRest.
Import Js Orm Handler.

(** The handler of [router.get('/')]. *)
Definition stations_list : M Reply :=
  allStations <- query (fun s => findAll (fun _ => true) (stations s)) ;;
  send 200 (StationsBody allStations).

End StationsRest.

(** ** [/users]: the user of the token *)

Module UsersRest.
Import Js Orm Handler Express.

(** The handler of [router.get('/')]; [id] is the id that the token
    middleware attached to the request. Its [catch] calls [next] without the
    error. *)
Definition users_me (env : Env) (id : JsValue)
  : M (nat * option (Z * jsstring * Z)) :=
  let result := checkRequiredParameters env [id] in
  if Bool.eqb (validation result) false
  then throw (HttpException (statusCode result) (Text (check_message result)))
  else if negb (Number_isInteger id)
  then bad_request "user 의 id 가 숫자가 아닙니다."
  else
    foundUser <- query (fun s => findOne (fun u => where_number id (user_id u)) (users s)) ;;
    ret (200, option_map (fun u => (user_id u, email u, user_createdAt u)) foundUser).

End UsersRest.

(** ** The station routes before deletion by id

    The same source file holds the station routes in their earlier form:
    the detail of a station marks the lockers of the requesting user, and a
    station is deleted by its name. *)

Module StationsEarlier.
Import Js Orm Handler Express.

(** The status a locker is shown with: the stored one, or ['my locker']. *)
Inductive ShownStatus :=
| Stored (s : LockerStatus)
| MyLocker.

Record StationDetail := {
  detail_station : Station;
  temperature : float;
  humidity : float;
  detail_lockers : list (Locker * ShownStatus)
}.

(** The body of the loop over the lockers of the station. *)
Definition shown (userId : Z) (l : Locker) : Locker * ShownStatus :=
  match Orm.userId l with
  | Some k => if (k =? userId)%Z then (l, MyLocker) else (l, Stored (status l))
  | None => (l, Stored (status l))
  end.

(** The handler of [router.get('/:id')] in its earlier form; [userId] is
    the id that the token middleware attached to the request. *)
Definition stations_get_mine (env : Env) (userId : Z) (id : jsstring)
  : M (nat * StationDetail) :=
  station <- query (fun s =>
    findOne (fun st => where_key env id (station_id st)) (stations s)) ;;
  match station with
  | None => bad_request "해당하는 역은 없습니다."
  | Some station =>
      match checkWeather env station with
      | None => throw (ExternalError "weather request failed")
      | Some (temp, hum) =>
          lockers <- query (fun s =>
            findAll (fun l => where_key env id (stationId l)) (lockers s)) ;;
          ret (200, {| detail_station := station; temperature := temp;
                       humidity := hum;
                       detail_lockers := List.map (shown userId) lockers |})
      end
  end.

(** The handler of [router.delete('/:name')]. *)
Definition stations_delete_by_name (env : Env) (name : jsstring) : M Reply :=
  nameValidation <- query (fun s => findOne (Stations.where_name name) (stations s)) ;;
  match nameValidation with
  | None => bad_request "없는 역이름 입니다."
  | Some nameValidation =>
      update (with_lockers
                (destroy (now env)
                   (fun l => (stationId l =? station_id nameValidation)%Z))) ;;;
      update (with_stations (destroy (now env) (Stations.where_name name))) ;;;
      send 204 NoBody
  end.

End StationsEarlier.

(** ** The user routes before [Number.isInteger] *)

Module UsersEarlier.
Import Js Orm Handler.

(** The handler of [router.get('/:id')] in its earlier form: the id is
    tested with [Number(id)]. *)
Definition users_get_number (env : Env) (id : jsstring) : M Reply :=
  let result := checkRequiredParameters env [Str id] in
  if Bool.eqb (validation result) false
  then throw (HttpException (statusCode result) (Text (check_message result)))
  else if negb (ToBoolean (Number_of_string id))
  then bad_request "user 의 id 는 숫자를 입력해주세요."
  else
    user <- query (fun s => findOne (fun u => where_key env id (user_id u)) (users s)) ;;
    userLocker <- query (fun s =>
      findAll (fun l => where_key_opt env id (userId l)) (lockers s)) ;;
    match user with
    | None => bad_request "없는 유저 입니다."
    | Some user => send 200 (UserLockersBody (user_id user, email user) userLocker)
    end.

End UsersEarlier.

(** ** What the store is expected to keep *)

Module Integrity.
Import Js Orm Handler.

(** No two active users share an email. *)
Definition emails_unique (s : Store) : Prop :=
  NoDup (List.map email (findAll (fun _ => true) (users s))).

(** No two active stations share a name. *)
Definition names_unique (s : Store) : Prop :=
  NoDup (List.map name (findAll (fun _ => true) (stations s))).

(** Primary keys are unique in every table the routes add rows to. *)
Definition keys_unique (s : Store) : Prop :=
  NoDup (List.map user_id (users s)) /\
  NoDup (List.map station_id (stations s)) /\
  NoDup (List.map post_id (posts s)) /\
  NoDup (List.map comment_id (comments s)).

(** Every station lies strictly inside the bounds of the coordinates. *)
Definition coordinates_in_range (s : Store) : Prop :=
  forall st, In st (stations s) ->
    ((-90 <? latitude st) && (latitude st <? 90))%float = true /\
    ((-180 <? longitude st) && (longitude st <? 180))%float = true.

(** Every comment belongs to a post of the store. *)
Definition comments_have_posts (s : Store) : Prop :=
  forall c, In c (comments s) -> exists p, In p (posts s) /\ post_id p = postId c.


(** The row that a successful sign-up adds. *)
Definition signed_up (env : Env) (e p : jsstring) (s : Store) : User :=
  {| user_id := next_id (List.map user_id (users s)); email := e;
     password := bcrypt_hash env p Auth.saltRounds; authority := USER;
     user_createdAt := now env; user_updatedAt := now env;
     user_deletedAt := None |}.

(** The conditions under which a request passes every check of the sign-up
    handler and gets to [User.create]. *)
Definition acceptable (e p : jsstring) (s : Store) : Prop :=
  findOne (Auth.where_email e) (users s) = None /\
  Regex.String_match e Auth.specialCharacters = false /\
  Regex.String_match e Auth.emptySpace = false /\
  Regex.String_match e Auth.startEnglishNumber = true /\
  (exists domain, nth_error (String_split (ch "@") e) 1 = Some domain /\
                  Regex.String_match domain Auth.emailAfterAtPattern = true) /\
  Auth.passwordLengthMin <= List.length p <= Auth.passwordLengthMax /\
  Regex.String_match p Auth.emptySpace = false.

End Integrity.

(** ** The strings a pattern stands for *)

Module Language.
Import Js Regex.

(** [Lang r s]: the string [s] belongs to the pattern [r]. *)
Inductive Lang : regex -> jsstring -> Prop :=
| LEps : Lang Eps []
| LAny : forall c, Lang Any [c]
| LClass : forall ranges c, in_class ranges c = true -> Lang (Class ranges) [c]
| LSeq : forall r1 r2 s1 s2, Lang r1 s1 -> Lang r2 s2 -> Lang (Seq r1 r2) (s1 ++ s2)
| LAltL : forall r1 r2 s, Lang r1 s -> Lang (Alt r1 r2) s
| LAltR : forall r1 r2 s, Lang r2 s -> Lang (Alt r1 r2) s
| LStarNil : forall r, Lang (Star r) []
| LStarApp : forall r s1 s2, Lang r s1 -> Lang (Star r) s2 -> Lang (Star r) (s1 ++ s2).

(** The characters a pattern can read. *)
Fixpoint alphabet (r : regex) (c : code_unit) : bool :=
  match r with
  | Void => false
  | Eps => false
  | Any => true
  | Class ranges => in_class ranges c
  | Seq r1 r2 => alphabet r1 c || alphabet r2 c
  | Alt r1 r2 => alphabet r1 c || alphabet r2 c
  | Star r1 => alphabet r1 c
  end.

(** The characters of the domain of an email: digits, letters, underscore,
    minus, and the dot. *)
Definition domain_character (c : code_unit) : bool :=
  in_class [rng "0" "9"; rng "a" "z"; rng "A" "Z"; one "_"; one "-"; one "."] c.

End Language.

(** * Properties *)

Unset Implicit Arguments.
Import Js Orm Handler.

(** ** Rows and tables *)

Section ModelFacts.
Context {R : Type} `{Paranoid R}.

Lemma active_deleted : forall t (r : R), active (set_deletedAt (Some t) r) = false.
Proof. intros. unfold active. rewrite deletedAt_set. reflexivity. Qed.

Lemma active_restored : forall r : R, active (set_deletedAt None r) = true.
Proof. intros. unfold active. rewrite deletedAt_set. reflexivity. Qed.

Lemma findOne_some : forall cond table (r : R),
  findOne cond table = Some r ->
  In r table /\ active r = true /\ cond r = true.
Proof.
  unfold findOne. intros cond table r Hf.
  apply find_some in Hf. destruct Hf as [Hin Hb].
  apply andb_true_iff in Hb. tauto.
Qed.

Lemma findOne_exists : forall cond table (r : R),
  In r table -> active r = true -> cond r = true ->
  exists r', findOne cond table = Some r'.
Proof.
  unfold findOne. intros cond table r Hin Ha Hc.
  destruct (find (fun r0 => active r0 && cond r0) table) eqn:E.
  - eauto.
  - apply find_none with (x := r) in E; [| assumption].
    rewrite Ha, Hc in E. discriminate.
Qed.

Lemma in_destroy : forall t cond table (r' : R),
  In r' (destroy t cond table) ->
  exists r, In r table /\
    ((r' = r /\ (active r && cond r) = false) \/
     (r' = set_deletedAt (Some t) r /\ active r = true /\ cond r = true)).
Proof.
  unfold destroy. intros t cond table r' Hin.
  apply in_map_iff in Hin. destruct Hin as [r [Heq Hin]].
  exists r. split; [assumption |].
  destruct (active r && cond r) eqn:E.
  - right. apply andb_true_iff in E. intuition.
  - left. intuition.
Qed.

Lemma in_restore : forall cond table (r' : R),
  In r' (restore cond table) ->
  exists r, In r table /\
    ((r' = r /\ cond r = false) \/ (r' = set_deletedAt None r /\ cond r = true)).
Proof.
  unfold restore. intros cond table r' Hin.
  apply in_map_iff in Hin. destruct Hin as [r [Heq Hin]].
  exists r. split; [assumption |].
  destruct (cond r) eqn:E; intuition.
Qed.

End ModelFacts.

(** ** The invariant of station deletion and restoration *)

Section LifeCycleFacts.
Import LifeCycle Stations.

Lemma where_key_eq : forall env id a b,
  where_key env id a = true -> where_key env id b = true -> a = b.
Proof.
  unfold where_key. intros env id a b Ha Hb.
  destruct (key_of env id); [| discriminate].
  apply Z.eqb_eq in Ha. apply Z.eqb_eq in Hb. congruence.
Qed.

(** Marking lockers deleted cannot break the invariant. *)
Lemma inv_destroy_lockers : forall t cond s,
  station_locker_inv s ->
  station_locker_inv (with_lockers (destroy t cond) s).
Proof.
  unfold station_locker_inv. simpl. intros t cond s Hinv l st Hl Hst Heq Hact.
  apply in_destroy in Hl. destruct Hl as [l0 [Hl0 [[-> _] | [-> _]]]].
  - eauto.
  - rewrite active_deleted in Hact. discriminate.
Qed.

(** After the lockers of station [k] are marked, none of them is active. *)
Lemma destroy_lockers_inactive : forall t k s l,
  In l (lockers (with_lockers (destroy t (fun l => (stationId l =? k)%Z)) s)) ->
  stationId l = k -> active l = false.
Proof.
  simpl. intros t k s l Hl Hk.
  apply in_destroy in Hl. destruct Hl as [l0 [_ [[-> Hb] | [-> _]]]].
  - apply andb_false_iff in Hb. destruct Hb as [Hb | Hb]; [assumption |].
    apply Z.eqb_neq in Hb. contradiction.
  - apply active_deleted.
Qed.

(** Marking the stations with key [id] deleted keeps the invariant when
    their lockers are already inactive. *)
Lemma inv_destroy_stations : forall env id k s,
  where_key env id k = true ->
  station_locker_inv s ->
  (forall l, In l (lockers s) -> stationId l = k -> active l = false) ->
  station_locker_inv
    (with_stations (destroy (now env) (fun st => where_key env id (station_id st))) s).
Proof.
  unfold station_locker_inv. simpl.
  intros env id k s Hk Hinv Hdead l st Hl Hst Heq Hact.
  apply in_destroy in Hst. destruct Hst as [st0 [Hst0 [[-> _] | [-> [_ Hc]]]]].
  - eauto.
  - simpl in Heq.
    assert (station_id st0 = k) by (eapply where_key_eq; eassumption).
    rewrite (Hdead l Hl) in Hact by congruence. discriminate.
Qed.

(** Restoring stations cannot break the invariant. *)
Lemma inv_restore_stations : forall cond s,
  station_locker_inv s ->
  station_locker_inv (with_stations (restore cond) s).
Proof.
  unfold station_locker_inv. simpl. intros cond s Hinv l st Hl Hst Heq Hact.
  apply in_restore in Hst. destruct Hst as [st0 [Hst0 [[-> _] | [-> _]]]].
  - eauto.
  - apply active_restored.
Qed.

(** Restoring the lockers of the stations with key [id] keeps the invariant
    once these stations are restored. *)
Lemma inv_restore_lockers : forall env id s,
  station_locker_inv s ->
  (forall st, In st (stations s) -> where_key env id (station_id st) = true ->
              active st = true) ->
  station_locker_inv
    (with_lockers (restore (fun l => where_key env id (stationId l))) s).
Proof.
  unfold station_locker_inv. simpl. intros env id s Hinv Hlive l st Hl Hst Heq Hact.
  apply in_restore in Hl. destruct Hl as [l0 [Hl0 [[-> _] | [-> Hc]]]].
  - eauto.
  - simpl in Heq. apply Hlive; [assumption |]. rewrite <- Heq. exact Hc.
Qed.

Lemma restore_stations_live : forall env id s st,
  In st (stations (with_stations
                     (restore (fun st => where_key env id (station_id st))) s)) ->
  where_key env id (station_id st) = true -> active st = true.
Proof.
  simpl. intros env id s st Hst Hc.
  apply in_restore in Hst. destruct Hst as [st0 [_ [[-> Hn] | [-> _]]]].
  - congruence.
  - apply active_restored.
Qed.

(** Every store that a station deletion writes satisfies the invariant. *)
Lemma stations_delete_inv : forall env id s s',
  station_locker_inv s ->
  In s' (trace (handle (stations_delete env id) s)) ->
  station_locker_inv s'.
Proof.
  intros env id s s' Hinv Hin.
  unfold handle, stations_delete in Hin.
  destruct (negb (ToBoolean (Str id))); [contradiction |].
  unfold bind, query in Hin. simpl in Hin.
  destruct (findOne (fun st => where_key env id (station_id st)) (stations s))
    as [station |] eqn:Hfind; simpl in Hin; [| contradiction].
  apply findOne_some in Hfind. destruct Hfind as [_ [_ Hkey]].
  destruct Hin as [<- | [<- | []]].
  - apply inv_destroy_lockers. assumption.
  - apply inv_destroy_stations with (k := station_id station).
    + assumption.
    + apply inv_destroy_lockers. assumption.
    + intros l Hl Hk. eapply destroy_lockers_inactive; eassumption.
Qed.

(** Every store that the two restores write satisfies the invariant. *)
Lemma restore_station_and_lockers_inv : forall env id s s',
  station_locker_inv s ->
  In s' (trace (handle (restore_station_and_lockers env id) s)) ->
  station_locker_inv s'.
Proof.
  intros env id s s' Hinv Hin.
  unfold handle, restore_station_and_lockers, bind, update, query in Hin.
  simpl in Hin.
  destruct Hin as [<- | [<- | []]].
  - apply inv_restore_stations. assumption.
  - apply inv_restore_lockers.
    + apply inv_restore_stations. assumption.
    + intros st Hst Hc. eapply restore_stations_live; eassumption.
Qed.

Lemma stations_restore_inv : forall env id s s',
  station_locker_inv s ->
  In s' (trace (handle (stations_restore env id) s)) ->
  station_locker_inv s'.
Proof.
  intros env id s s' Hinv Hin.
  unfold handle, stations_restore, bind, unbound, throw in Hin.
  cbn [result final writes trace] in Hin. contradiction.
Qed.

End LifeCycleFacts.

(** C1. Starting from a store in which no active locker belongs to a deleted
    station, every store that station deletion and station restoration reach
    is such a store again, the store between the two writes of a handler
    included: deletion marks the lockers before the station, restoration
    clears the station before the lockers. *)
Theorem C1_station_locker_invariant : forall s0 s,
  LifeCycle.station_locker_inv s0 ->
  LifeCycle.reachable s0 s ->
  LifeCycle.station_locker_inv s.
Proof.
  intros s0 s Hinv Hreach.
  induction Hreach as [| env id s s' _ IH Hin | env id s s' _ IH Hin
                       | env id s s' _ IH Hin].
  - assumption.
  - eapply stations_delete_inv; eassumption.
  - eapply stations_restore_inv; eassumption.
  - eapply restore_station_and_lockers_inv; eassumption.
Qed.

Lemma C1_witness :
  LifeCycle.station_locker_inv Demo.open_store /\
  LifeCycle.station_locker_inv
    (with_lockers (destroy 1000 (fun l => (stationId l =? 1)%Z)) Demo.open_store).
Proof.
  assert (H0 : LifeCycle.station_locker_inv Demo.open_store).
  { intros l st Hl Hst _ _. simpl in Hst.
    destruct Hst as [<- | []]. reflexivity. }
  split; [exact H0 |].
  apply (C1_station_locker_invariant Demo.open_store); [exact H0 |].
  apply LifeCycle.reach_delete
    with (env := Demo.env) (id := lit "1") (s := Demo.open_store).
  - apply LifeCycle.reach_start.
  - simpl. left. reflexivity.
Defined.

(** ** Strings *)

Lemma jsstring_eqb_refl : forall a, jsstring_eqb a a = true.
Proof.
  intros a. unfold jsstring_eqb.
  destruct (list_eq_dec N.eq_dec a a); [reflexivity | contradiction].
Qed.

Lemma jsstring_eqb_eq : forall a b, jsstring_eqb a b = true <-> a = b.
Proof.
  intros a b. unfold jsstring_eqb.
  destruct (list_eq_dec N.eq_dec a b); split; intros; congruence.
Qed.

Lemma String_split_nonempty : forall sep s, String_split sep s <> [].
Proof.
  intros sep s. destruct s as [| c rest]; simpl; [discriminate |].
  destruct (c =? sep)%N; [discriminate |].
  destruct (String_split sep rest); discriminate.
Qed.

(** Without the separator the string is the only piece, so the piece of
    index 1 is [undefined]. *)
Lemma String_split_absent : forall sep s,
  ~ In sep s -> String_split sep s = [s].
Proof.
  intros sep s. induction s as [| c rest IH]; intros Hno; simpl.
  - reflexivity.
  - destruct (c =? sep)%N eqn:E.
    + apply N.eqb_eq in E. exfalso. apply Hno. left. assumption.
    + rewrite IH; [reflexivity |]. intros Hin. apply Hno. right. assumption.
Qed.

(** With the separator there is a piece of index 1. *)
Lemma String_split_present : forall sep s,
  In sep s -> exists piece, nth_error (String_split sep s) 1 = Some piece.
Proof.
  intros sep s. induction s as [| c rest IH]; intros Hin; simpl.
  - contradiction.
  - destruct (c =? sep)%N eqn:E.
    + destruct (String_split sep rest) as [| p ps] eqn:Er.
      * exfalso. eapply String_split_nonempty. eassumption.
      * exists p. reflexivity.
    + destruct Hin as [-> | Hin].
      * rewrite N.eqb_refl in E. discriminate.
      * destruct (IH Hin) as [piece Hp].
        destruct (String_split sep rest) as [| p ps]; [discriminate |].
        exists piece. exact Hp.
Qed.

(** ** Regular expressions *)

Section RegexFacts.
Import Regex.

Lemma accepting_deriv : forall c r, accepting r -> accepting (deriv c r).
Proof.
  intros c r [-> | [x ->]].
  - left. reflexivity.
  - cbn. destruct (deriv c x); cbn; unfold accepting; eauto.
Qed.

Lemma accepting_matches : forall s r, accepting r -> matches r s = true.
Proof.
  unfold matches. induction s as [| c s IH]; intros r Hr.
  - destruct Hr as [-> | [x ->]]; cbn; [reflexivity | apply orb_true_r].
  - cbn. apply IH. apply accepting_deriv. exact Hr.
Qed.

Lemma Void_matches : forall s, matches Void s = false.
Proof. unfold matches. induction s as [| c s IH]; cbn; [reflexivity | exact IH]. Qed.

(** An unanchored one-character pattern matches exactly the strings that
    hold a character of the class. *)
Lemma test_search_class : forall cs s,
  test {| body := Class cs; from_start := false; to_end := false |} s =
  existsb (in_class cs) s.
Proof.
  intros cs s. unfold test. cbn [from_start to_end body].
  induction s as [| c s IH].
  - reflexivity.
  - unfold matches in *. cbn [fold_left existsb].
    replace (deriv c (Seq (Star Any) (Seq (Class cs) (Star Any))))
      with (if in_class cs c
            then Alt (Seq (Star Any) (Seq (Class cs) (Star Any))) (Star Any)
            else Seq (Star Any) (Seq (Class cs) (Star Any)))
      by (cbn; destruct (in_class cs c); reflexivity).
    destruct (in_class cs c).
    + apply (accepting_matches s). right. eauto.
    + exact IH.
Qed.

(** A one-character pattern anchored at the start looks at the first
    character only. *)
Lemma test_prefix_class : forall cs s,
  test {| body := Class cs; from_start := true; to_end := false |} s =
  match s with
  | c :: _ => in_class cs c
  | [] => false
  end.
Proof.
  intros cs s. unfold test. cbn [from_start to_end body].
  destruct s as [| c s]; [reflexivity |].
  unfold matches. cbn [fold_left].
  replace (deriv c (Seq Eps (Seq (Class cs) (Star Any))))
    with (if in_class cs c then Star Any else Void)
    by (cbn; destruct (in_class cs c); reflexivity).
  destruct (in_class cs c).
  - apply (accepting_matches s). left. reflexivity.
  - apply Void_matches.
Qed.

Lemma white_space_class_spec : forall c,
  in_class [(9, 13); (32, 32); (160, 160); (5760, 5760); (8192, 8202);
            (8232, 8233); (8239, 8239); (8287, 8287); (12288, 12288);
            (65279, 65279)]%N c = is_white_space c.
Proof.
  intros c. unfold in_class, is_white_space. cbn [existsb fst snd].
  apply eq_true_iff_eq.
  rewrite ?orb_true_iff, ?andb_true_iff, ?N.eqb_eq, ?N.leb_le.
  lia.
Qed.

End RegexFacts.

(** ** Sign-up *)

Section SignUpFacts.
Import Regex Auth.

(** The three tests of the email that come before the domain test, in
    plain terms. *)
Lemma match_specialCharacters : forall e,
  String_match e specialCharacters = existsb (in_class special_set) e.
Proof. intros e. apply test_search_class. Qed.

Lemma match_emptySpace : forall e,
  String_match e emptySpace = existsb is_white_space e.
Proof.
  intros e. unfold String_match, emptySpace, white_space_class.
  rewrite test_search_class.
  induction e as [| c e IH]; [reflexivity |].
  cbn [existsb]. rewrite IH, white_space_class_spec. reflexivity.
Qed.

Lemma match_startEnglishNumber : forall e,
  String_match e startEnglishNumber =
  match e with
  | c :: _ => in_class start_set c
  | [] => false
  end.
Proof. intros e. apply test_prefix_class. Qed.

(** C6. A sign-up whose email is the email of a registered (active) user is
    answered with status 400 and the duplicate-email message, whatever the
    email looks like and whatever the password is, present or not; the store
    is left as it was. *)
Theorem C6_duplicate_email_rejected :
  forall env s (e : jsstring) (password : option jsstring) (u : User),
    In u (users s) -> active u = true -> email u = e ->
    let r := handle (sign_up env (Some e) password) s in
    outcome r =
      Forwarded (HttpException 400 (Text "입력하신 이메일은 이미 사용 중입니다.")) /\
    status_of (outcome r) = Some 400 /\
    store r = s /\ trace r = [].
Proof.
  intros env s e password u Hin Hact He.
  destruct (findOne_exists (where_email e) (users s) u Hin Hact) as [u' Hf].
  { unfold where_email. rewrite He. apply jsstring_eqb_refl. }
  unfold handle, sign_up, transaction, bind, query. cbn [result final writes].
  rewrite Hf. repeat split; reflexivity.
Qed.

Lemma C6_witness :
  let r := handle (sign_up Demo.env (Some (lit "alice@example.com"))
                     (Some (lit "x"))) Demo.open_store in
  status_of (outcome r) = Some 400 /\ store r = Demo.open_store.
Proof.
  destruct (C6_duplicate_email_rejected Demo.env Demo.open_store
              (lit "alice@example.com") (Some (lit "x")) Demo.alice)
    as [_ [Hs [Hst _]]].
  - simpl. left. reflexivity.
  - reflexivity.
  - reflexivity.
  - split; [exact Hs | exact Hst].
Defined.

(** C9, as the code has it. A sign-up whose email has no at sign, is not
    registered, holds no special character and no white space and starts
    with a digit, a comma or a letter ends in the TypeError of calling
    [match] on [undefined]: no [HttpException] is raised and no status is
    set by the handler. Nothing is written. *)
Theorem C9_missing_at_sign_type_error :
  forall env s (e : jsstring) (password : option jsstring) (first : code_unit),
    ~ In (ch "@") e ->
    findOne (where_email e) (users s) = None ->
    existsb (in_class special_set) e = false ->
    existsb is_white_space e = false ->
    hd_error e = Some first -> in_class start_set first = true ->
    let r := handle (sign_up env (Some e) password) s in
    outcome r =
      Forwarded (TypeError "Cannot read properties of undefined (reading 'match')") /\
    status_of (outcome r) = None /\
    store r = s /\ trace r = [].
Proof.
  intros env s e password first Hat Hfree Hspecial Hspace Hfirst Hstart.
  rewrite <- match_specialCharacters in Hspecial.
  rewrite <- match_emptySpace in Hspace.
  assert (Hstart' : String_match e startEnglishNumber = true).
  { rewrite match_startEnglishNumber.
    destruct e; [discriminate | injection Hfirst as ->; exact Hstart]. }
  unfold handle, sign_up, transaction.
  rewrite (String_split_absent _ _ Hat).
  unfold bind, query. cbn [result final writes].
  rewrite Hfree, Hspecial, Hspace, Hstart'. cbn.
  repeat split; reflexivity.
Qed.

Lemma C9_witness :
  let r := handle (sign_up Demo.env (Some (lit "bob.example.com"))
                     (Some (lit "longenough"))) Demo.open_store in
  outcome r =
    Forwarded (TypeError "Cannot read properties of undefined (reading 'match')") /\
  status_of (outcome r) = None.
Proof.
  destruct (C9_missing_at_sign_type_error Demo.env Demo.open_store
              (lit "bob.example.com") (Some (lit "longenough")) (ch "b"))
    as [Ho [Hs _]].
  - vm_compute. intuition discriminate.
  - reflexivity.
  - vm_compute. reflexivity.
  - vm_compute. reflexivity.
  - reflexivity.
  - vm_compute. reflexivity.
  - split; [exact Ho | exact Hs].
Defined.

(** C9 as stated fails: an unregistered email without an at sign that holds
    an exclamation mark is answered with the special-character error, an
    [HttpException] of status 400. *)
Lemma C9_counterexample :
  ~ In (ch "@") (lit "a!bc") /\
  findOne (where_email (lit "a!bc")) (users Demo.open_store) = None /\
  outcome (handle (sign_up Demo.env (Some (lit "a!bc")) (Some (lit "longenough")))
             Demo.open_store) =
    Forwarded (HttpException 400 (Text "입력하신 이메일에 특수문자가 있습니다.")) /\
  status_of (outcome (handle (sign_up Demo.env (Some (lit "a!bc"))
                            (Some (lit "longenough"))) Demo.open_store)) = Some 400.
Proof.
  split; [| split; [| split]].
  - vm_compute. intuition discriminate.
  - reflexivity.
  - vm_compute. reflexivity.
  - vm_compute. reflexivity.
Qed.

(** C5 at the failing input: a password of five characters sent with an
    unregistered email that has no at sign is not answered with status 400;
    the handler ends in a TypeError before it looks at the password. *)
Theorem C5_short_password_without_at_sign :
  let r := handle (sign_up Demo.env (Some (lit "abc")) (Some (lit "short")))
             Demo.open_store in
  List.length (lit "short") < passwordLengthMin /\
  outcome r =
    Forwarded (TypeError "Cannot read properties of undefined (reading 'match')") /\
  status_of (outcome r) <> Some 400.
Proof.
  split; [| split].
  - vm_compute. lia.
  - vm_compute. reflexivity.
  - vm_compute. discriminate.
Qed.

(** What holds of short and long passwords: when the email has an at sign,
    every path of the handler ends in status 400. *)
Lemma password_length_rejected : forall env s (e p : jsstring),
  In (ch "@") e ->
  List.length p < passwordLengthMin \/ passwordLengthMax < List.length p ->
  status_of (outcome (handle (sign_up env (Some e) (Some p)) s)) = Some 400 /\
  store (handle (sign_up env (Some e) (Some p)) s) = s.
Proof.
  intros env s e p Hat Hlen.
  destruct (String_split_present _ _ Hat) as [piece Hpiece].
  unfold handle, sign_up, transaction.
  rewrite Hpiece.
  unfold bind, query. cbn [result final writes].
  destruct (findOne (where_email e) (users s)); [split; reflexivity |].
  destruct (String_match e specialCharacters); [split; reflexivity |].
  destruct (String_match e emptySpace); [split; reflexivity |].
  destruct (String_match e startEnglishNumber); [| split; reflexivity].
  destruct (String_match piece emailAfterAtPattern); [| split; reflexivity].
  cbn [negb].
  assert (Hb : (List.length p <? passwordLengthMin)
               || (passwordLengthMax <? List.length p) = true).
  { apply orb_true_iff. destruct Hlen as [H | H]; [left | right];
      apply Nat.ltb_lt; exact H. }
  rewrite Hb. simpl. split; reflexivity.
Qed.

End SignUpFacts.

(** ** Route parameters and [Number.isInteger] *)

Section RouteParameterFacts.
Import Users Comments Stations.

(** A route parameter is a string, and [Number.isInteger] is false on every
    string. *)
Lemma Number_isInteger_string : forall id : jsstring,
  Number_isInteger (Str id) = false.
Proof. reflexivity. Qed.

Ltac stop_at_checks :=
  unfold rejected_unchanged, handle;
  rewrite ?Number_isInteger_string;
  repeat match goal with
         | |- context [negb (ToBoolean ?v)] => destruct (negb (ToBoolean v))
         | |- context [Bool.eqb ?b false] => destruct (Bool.eqb b false)
         end;
  cbn; repeat split; reflexivity.

Lemma comments_get_rejected : forall env userAuthor userId id s,
  rejected_unchanged (handle (comments_get env userAuthor userId id) s) s.
Proof. intros. unfold comments_get. stop_at_checks. Qed.

Lemma comments_delete_rejected : forall env id s,
  rejected_unchanged (handle (comments_delete env id) s) s.
Proof. intros. unfold comments_delete. stop_at_checks. Qed.

Lemma stations_get_rejected : forall env id s,
  rejected_unchanged (handle (stations_get env id) s) s.
Proof. intros. unfold stations_get. stop_at_checks. Qed.

(** The handler that restores a station stops at its first statement, where
    it reads a name that its module does not bind. *)
Lemma stations_restore_unbound : forall env id s,
  let r := handle (stations_restore env id) s in
  outcome r = Forwarded (ReferenceError "checkRequiredParameters is not defined") /\
  store r = s /\ trace r = [].
Proof. intros env id s. repeat split; reflexivity. Qed.

Lemma users_get_rejected : forall env id s,
  rejected_unchanged (handle (users_get env id) s) s.
Proof. intros. unfold users_get. stop_at_checks. Qed.

Lemma users_delete_rejected : forall env id s,
  rejected_unchanged (handle (users_delete env id) s) s.
Proof. intros. unfold users_delete. stop_at_checks. Qed.

Lemma users_restore_rejected : forall env id s,
  rejected_unchanged (handle (users_restore env id) s) s.
Proof. intros. unfold users_restore. stop_at_checks. Qed.

(** The handlers that reach their [Number.isInteger] check answer status 400
    for every value of the route parameter and leave the store as it was:
    reading and deleting a comment, reading a station, and reading, deleting
    and restoring a user never get past their checks. *)
Theorem isInteger_rejects_route_parameters :
  forall env (id : jsstring) (userAuthor : UserAuthority) (userId : Z) s,
    rejected_unchanged (handle (comments_get env userAuthor userId id) s) s /\
    rejected_unchanged (handle (comments_delete env id) s) s /\
    rejected_unchanged (handle (stations_get env id) s) s /\
    rejected_unchanged (handle (users_get env id) s) s /\
    rejected_unchanged (handle (users_delete env id) s) s /\
    rejected_unchanged (handle (users_restore env id) s) s.
Proof.
  intros env id userAuthor userId s.
  repeat split;
    first [ apply comments_get_rejected | apply comments_delete_rejected
          | apply stations_get_rejected
          | apply users_get_rejected | apply users_delete_rejected
          | apply users_restore_rejected ].
Qed.

(** C8 at the failing route: the handler that restores a station has a
    [Number.isInteger] check on its route parameter, and does not reach it.
    For every id and every store the request ends in the ReferenceError of
    the handler's first statement, which the handler forwards: the outcome
    is not a rejection with status 400. Nothing is written, so the success
    branch is not reached on this route either. *)
Theorem C8_stations_restore_not_400 : forall env (id : jsstring) s,
  let r := handle (stations_restore env id) s in
  outcome r = Forwarded (ReferenceError "checkRequiredParameters is not defined") /\
  status_of (outcome r) <> Some 400 /\
  ~ rejected_unchanged r s /\
  store r = s /\ trace r = [].
Proof.
  intros env id s r.
  destruct (stations_restore_unbound env id s) as [Ho [Hs Ht]].
  fold r in Ho, Hs, Ht.
  split; [exact Ho |]. split; [rewrite Ho; discriminate |].
  split; [| split; assumption].
  intros [H _]. rewrite Ho in H. discriminate.
Qed.

(** ** Restoring *)

(** Restoring a comment or a user whose record is active is answered with
    status 400, and nothing is written: the store after the request is the
    store before it. *)
Theorem restore_of_active_comment_or_user_rejected :
  forall env (id : jsstring) s,
    (forall c, In c (comments s) -> active c = true ->
               where_key env id (comment_id c) = true ->
               rejected_unchanged (handle (comments_restore env id) s) s) /\
    (forall u, In u (users s) -> active u = true ->
               where_key env id (user_id u) = true ->
               rejected_unchanged (handle (users_restore env id) s) s).
Proof.
  intros env id s. split.
  - intros c Hin Hact Hkey.
    destruct (findOne_exists (fun c => where_key env id (comment_id c))
                (comments s) c Hin Hact Hkey) as [c' Hf].
    unfold rejected_unchanged, handle, comments_restore.
    destruct (negb (ToBoolean (Str id))); [cbn; repeat split; reflexivity |].
    destruct (negb (ToBoolean (Number_of_string id)));
      [cbn; repeat split; reflexivity |].
    unfold bind, query. cbn [result final writes]. rewrite Hf.
    cbn. repeat split; reflexivity.
  - intros u _ _ _. apply users_restore_rejected.
Qed.

Lemma restore_of_active_comment_or_user_rejected_witness :
  rejected_unchanged
    (handle (comments_restore Demo.env (lit "1")) Demo.open_store) Demo.open_store /\
  rejected_unchanged
    (handle (users_restore Demo.env (lit "1")) Demo.open_store) Demo.open_store.
Proof.
  destruct (restore_of_active_comment_or_user_rejected Demo.env (lit "1")
              Demo.open_store) as [Hc Hu].
  split.
  - apply (Hc (Demo.answer None)).
    + simpl. left. reflexivity.
    + reflexivity.
    + vm_compute. reflexivity.
  - apply (Hu Demo.alice).
    + simpl. left. reflexivity.
    + reflexivity.
    + vm_compute. reflexivity.
Defined.

(** C3 at the failing input: station 1 is active, and the request to restore
    it is not answered with status 400. The handler forwards the
    ReferenceError of its first statement and does not get to the lookup
    that tells an active station from a deleted one. The store is left as it
    was. This holds in every environment. *)
Theorem C3_restore_of_active_station_not_400 : forall env,
  let r := handle (stations_restore env (lit "1")) Demo.open_store in
  stations Demo.open_store = [Demo.seoul None] /\
  active (Demo.seoul None) = true /\
  outcome r = Forwarded (ReferenceError "checkRequiredParameters is not defined") /\
  status_of (outcome r) <> Some 400 /\
  store r = Demo.open_store.
Proof.
  intros env r.
  destruct (stations_restore_unbound env (lit "1") Demo.open_store)
    as [Ho [Hs _]].
  fold r in Ho, Hs.
  split; [reflexivity |]. split; [reflexivity |].
  split; [exact Ho |]. split; [rewrite Ho; discriminate | exact Hs].
Qed.

(** C4 at the failing input: restoring the deleted comment 1 succeeds, the
    comment is active afterwards, and the response carries status 200, not
    201. The statements that restore a station and its lockers answer with
    200 as well. *)
Theorem C4_restore_answers_200 :
  let r := handle (comments_restore Demo.env (lit "1")) Demo.closed_store in
  let r' := handle (restore_station_and_lockers Demo.env (lit "1"))
              Demo.closed_store in
  findOne (fun c => (comment_id c =? 1)%Z) (comments Demo.closed_store) = None /\
  outcome r = Sent 200 (CommentBody (Some (Demo.answer None))) /\
  comments (store r) = [Demo.answer None] /\
  status_of (outcome r) <> Some 201 /\
  outcome r' =
    Sent 200 (StationLockersBody (Some (Demo.seoul None))
                [Demo.locker 1 None; Demo.locker 2 None]).
Proof.
  repeat split; try (vm_compute; reflexivity).
  vm_compute. discriminate.
Qed.

(** No response of the restore handlers carries status 201. *)
Lemma restore_never_201 : forall env id s b,
  outcome (handle (comments_restore env id) s) <> Sent 201 b /\
  outcome (handle (stations_restore env id) s) <> Sent 201 b /\
  outcome (handle (restore_station_and_lockers env id) s) <> Sent 201 b.
Proof.
  intros env id s b. split; [| split].
  - unfold handle, comments_restore.
    destruct (negb (ToBoolean (Str id))); [cbn; discriminate |].
    destruct (negb (ToBoolean (Number_of_string id))); [cbn; discriminate |].
    unfold bind, query. cbn [result final writes].
    destruct (findOne _ (comments s)); cbn; discriminate.
  - destruct (stations_restore_unbound env id s) as [H _].
    intros E. rewrite E in H. discriminate.
  - cbn. discriminate.
Qed.

(** C2 at the failing input: station 1 and its lockers are deleted, and the
    request to restore station 1 restores nothing. The handler forwards the
    ReferenceError of its first statement, no response is sent, and the
    station and the lockers stay deleted. This holds in every environment. *)
Theorem C2_restore_leaves_station_deleted : forall env,
  let r := handle (stations_restore env (lit "1")) Demo.closed_store in
  outcome r = Forwarded (ReferenceError "checkRequiredParameters is not defined") /\
  status_of (outcome r) = None /\
  store r = Demo.closed_store /\
  List.map active (stations (store r)) = [false] /\
  List.map active (lockers (store r)) = [false; false].
Proof.
  intros env r.
  destruct (stations_restore_unbound env (lit "1") Demo.closed_store)
    as [Ho [Hs _]].
  fold r in Ho, Hs. rewrite Hs, Ho. repeat split; reflexivity.
Qed.

(** The deletion half of C2: deleting a station found under the default
    scope is answered with 204 and leaves that station and every locker with
    its id inactive. *)
Lemma stations_delete_marks : forall env id s st,
  id <> [] ->
  findOne (fun st => where_key env id (station_id st)) (stations s) = Some st ->
  let r := handle (stations_delete env id) s in
  outcome r = Sent 204 NoBody /\
  (forall st', In st' (stations (store r)) -> station_id st' = station_id st ->
               active st' = false) /\
  (forall l, In l (lockers (store r)) -> stationId l = station_id st ->
             active l = false).
Proof.
  intros env id s st Hid Hf r. subst r.
  unfold handle, stations_delete.
  destruct id as [| c rest]; [contradiction |]. cbn [ToBoolean negb].
  unfold bind, query, update. cbn [result final writes]. rewrite Hf.
  cbn [result final writes outcome store send ret].
  apply findOne_some in Hf. destruct Hf as [_ [_ Hkey]].
  split; [reflexivity | split].
  - intros st' Hin Heq. simpl in Hin.
    apply in_destroy in Hin. destruct Hin as [st0 [_ [[-> Hb] | [-> _]]]].
    + apply andb_false_iff in Hb. destruct Hb as [Hb | Hb]; [assumption |].
      rewrite Heq, Hkey in Hb. discriminate.
    + apply active_deleted.
  - intros l Hin Heq. simpl in Hin.
    eapply destroy_lockers_inactive with (s := s); [exact Hin | exact Heq].
Qed.

End RouteParameterFacts.

(** ** Posts *)

Section PostFacts.
Import Posts.

(** C10. The handler looks the email up and checks nothing else. When the
    lookup finds a user, the request is answered with 201 and exactly one
    post is added: it carries the title and the content as they were
    supplied, absent or empty ones too, and the id of the user found. When
    the lookup finds no user, the request is answered with 400 and nothing
    is written. *)
Theorem C10_post_created_for_registered_email :
  forall env s (email : jsstring) (title content : option jsstring),
    (forall user, find_user_by_email email s = Some user ->
       let r := handle (posts_post env email title content) s in
       let newPost := new_post env title content (user_id user) (posts s) in
       outcome r = Sent 201 (PostBody newPost) /\
       store r = with_posts (fun table => table ++ [newPost]) s /\
       Orm.title newPost = title /\ Orm.content newPost = content /\
       post_userId newPost = user_id user) /\
    (find_user_by_email email s = None ->
       rejected_unchanged (handle (posts_post env email title content) s) s).
Proof.
  intros env s email title content. split.
  - intros user Hf. unfold handle, posts_post, transaction, bind, query, update.
    cbn [result final writes]. rewrite Hf. cbn.
    repeat split; reflexivity.
  - intros Hf. unfold rejected_unchanged, handle, posts_post, bind, query.
    cbn [result final writes]. rewrite Hf. cbn.
    repeat split; reflexivity.
Qed.

Lemma C10_witness :
  let r := handle (posts_post Demo.env (lit "alice@example.com") None
                     (Some [])) Demo.open_store in
  let r' := handle (posts_post Demo.env (lit "bob@example.com")
                      (Some (lit "t")) (Some (lit "c"))) Demo.open_store in
  (outcome r =
     Sent 201 (PostBody (new_post Demo.env None (Some []) 1 [Demo.question])) /\
   posts (store r) =
     [Demo.question; new_post Demo.env None (Some []) 1 [Demo.question]]) /\
  rejected_unchanged r' Demo.open_store.
Proof.
  split.
  - destruct (C10_post_created_for_registered_email Demo.env Demo.open_store
                (lit "alice@example.com") None (Some [])) as [H _].
    destruct (H Demo.alice) as [Ho [Hs _]].
    + vm_compute. reflexivity.
    + split; [exact Ho |]. rewrite Hs. reflexivity.
  - destruct (C10_post_created_for_registered_email Demo.env Demo.open_store
                (lit "bob@example.com") (Some (lit "t")) (Some (lit "c")))
      as [_ H].
    apply H. vm_compute. reflexivity.
Defined.

End PostFacts.

(** ** Creating stations *)

Section StationPostFacts.
Import Stations.

Lemma get_prop_total : forall item k,
  item <> Null -> item <> Undefined -> exists v, get_prop item k = Some v.
Proof.
  intros item k Hn Hu.
  destruct item; try contradiction; simpl; eauto.
Qed.

Ltac refuse :=
  solve [ unfold refused, bad_request, throw; cbn [result final writes];
          repeat split; eauto ].

(** One turn of the loop on an item with a coordinate out of range refuses
    with status 400 and writes nothing. *)
Lemma stations_post_item_out_of_range : forall env data n s item,
  get_prop data n = Some item ->
  out_of_range item ->
  refused (stations_post_item env data n s) s.
Proof.
  intros env data n s item Hitem Hbad.
  assert (Hn : item <> Null).
  { intros ->. destruct Hbad as [[x [H _]] | [y [H _]]]; discriminate. }
  assert (Hu : item <> Undefined).
  { intros ->. destruct Hbad as [[x [H _]] | [y [H _]]]; discriminate. }
  destruct (get_prop_total item (lit "name") Hn Hu) as [vn Hvn].
  destruct (get_prop_total item (lit "latitude") Hn Hu) as [vla Hvla].
  destruct (get_prop_total item (lit "longitude") Hn Hu) as [vlo Hvlo].
  assert (Hk : Object_keys item = Some (own_keys item))
    by (destruct item; try contradiction; reflexivity).
  unfold stations_post_item, property, bind, ret, query, update.
  rewrite Hitem. cbn [result final writes app]. rewrite Hk.
  destruct (List.length (own_keys item) =? 0)%nat; [refuse |].
  destruct (negb (TypeTag_eqb (typeof item) TObject)
            || match item with Null => true | _ => false end);
    [refuse |].
  destruct (negb (forallb (includes (own_keys item)) requiredKeys)
            || negb (List.length (own_keys item) =? List.length requiredKeys)%nat);
    [refuse |].
  rewrite Hvn, Hvla, Hvlo. cbn [result final writes app].
  destruct vn; try refuse.
  destruct vla; try refuse.
  destruct (negb ((-90 <? x)%float && (x <? 90)%float)) eqn:Hla; [refuse |].
  destruct vlo; try refuse.
  destruct (negb ((-180 <? x0)%float && (x0 <? 180)%float)) eqn:Hlo; [refuse |].
  exfalso.
  apply negb_false_iff in Hla. apply negb_false_iff in Hlo.
  destruct Hbad as [[x' [H1 H2]] | [y' [H1 H2]]].
  - rewrite Hvla in H1. injection H1 as <-. congruence.
  - rewrite Hvlo in H1. injection H1 as <-. congruence.
Qed.

(** C7 at the failing input: the batch holds [null] and, after it, an item
    whose latitude is 90. The request is not answered with status 400: the
    loop asks for the keys of [null] before it compares the entry with
    [null], and the TypeError of that call is forwarded before the item out
    of range is looked at. No station is created. *)
Theorem C7_null_entry_before_out_of_range_item :
  let data := Arr [Null; Demo.station_item "b" 90 0] in
  let r := handle (stations_post Demo.env data) Demo.empty in
  get_prop data (lit "1") = Some (Demo.station_item "b" 90 0) /\
  out_of_range (Demo.station_item "b" 90 0) /\
  outcome r = Forwarded (TypeError "Cannot convert undefined or null to object") /\
  status_of (outcome r) <> Some 400 /\
  stations (store r) = [].
Proof.
  intros data r. split; [reflexivity |]. split; [| split; [| split]].
  - left. exists 90%float. split; reflexivity.
  - vm_compute. reflexivity.
  - vm_compute. discriminate.
  - vm_compute. reflexivity.
Qed.

(** The bounds are tight: 89.5 and 179.5 pass, 90 and 180 and what is not a
    number at all do not. *)
Example coordinates_at_the_bounds :
  status_of (outcome (handle (stations_post Demo.env
    (Arr [Demo.station_item "a" 89.5 179.5])) Demo.empty)) = Some 201 /\
  status_of (outcome (handle (stations_post Demo.env
    (Arr [Demo.station_item "a" (-90) 0])) Demo.empty)) = Some 400 /\
  status_of (outcome (handle (stations_post Demo.env
    (Arr [Demo.station_item "a" 0 180])) Demo.empty)) = Some 400 /\
  status_of (outcome (handle (stations_post Demo.env
    (Arr [Demo.station_item "a" nan 0])) Demo.empty)) = Some 400.
Proof. repeat split; vm_compute; reflexivity. Qed.

End StationPostFacts.

(** * Further properties of the routes *)

(** ** Tables *)

Section TableFacts.
Context {R : Type} `{Paranoid R}.

Lemma findOne_none : forall cond table (r : R),
  findOne cond table = None -> In r table -> active r = true -> cond r = false.
Proof.
  unfold findOne. intros cond table r Hf Hin Hact.
  apply find_none with (x := r) in Hf; [| exact Hin].
  rewrite Hact in Hf. exact Hf.
Qed.

Lemma findOne_app_new : forall cond table (r : R),
  findOne cond table = None -> active r = true -> cond r = true ->
  findOne cond (table ++ [r]) = Some r.
Proof.
  unfold findOne. intros cond table r Hf Hact Hc.
  induction table as [| h t IH]; simpl in *.
  - rewrite Hact, Hc. reflexivity.
  - destruct (active h && cond h); [discriminate | apply IH; exact Hf].
Qed.

Lemma findAll_app : forall cond (a b : list R),
  findAll cond (a ++ b) = findAll cond a ++ findAll cond b.
Proof. intros. unfold findAll. apply filter_app. Qed.

Lemma in_findAll : forall cond table (r : R),
  In r (findAll cond table) <-> In r table /\ active r = true /\ cond r = true.
Proof.
  intros cond table r. unfold findAll. rewrite filter_In, andb_true_iff. tauto.
Qed.

(** Restoring where nothing matches leaves the table as it is. *)
Lemma restore_no_match : forall cond (table : list R),
  (forall r, In r table -> cond r = false) -> restore cond table = table.
Proof.
  intros cond table Hno. unfold restore.
  induction table as [| h t IH]; simpl; [reflexivity |].
  rewrite (Hno h) by (left; reflexivity).
  rewrite IH; [reflexivity |]. intros r Hr. apply Hno. right. exact Hr.
Qed.

End TableFacts.

Lemma next_id_above : forall ids k, In k ids -> (k < next_id ids)%Z.
Proof.
  unfold next_id. induction ids as [| h t IH]; intros k Hin.
  - contradiction.
  - cbn [fold_right]. destruct Hin as [-> | Hin]; [lia |].
    specialize (IH k Hin). lia.
Qed.

(** A key handed out by auto-increment is not in use. *)
Lemma next_id_fresh : forall ids, ~ In (next_id ids) ids.
Proof. intros ids Hin. apply next_id_above in Hin. lia. Qed.

Lemma NoDup_app_fresh : forall (A : Type) (l : list A) (x : A),
  NoDup l -> ~ In x l -> NoDup (l ++ [x]).
Proof.
  intros A l x Hnd Hx. induction Hnd as [| h t Hh Hnd IH]; simpl.
  - constructor; [intros [] | constructor].
  - constructor.
    + rewrite in_app_iff. intros [Hin | [<- | []]]; [contradiction |].
      apply Hx. left. reflexivity.
    + apply IH. intros Hin. apply Hx. right. exact Hin.
Qed.

(** ** Sign-up: what is stored, and when *)

Section SignUpStore.
Import Regex Auth Integrity.

(** An email that no row holds is not found among the active users. *)
Lemma email_unused_not_found : forall e s,
  email_taken e s = false -> findOne (where_email e) (users s) = None.
Proof.
  intros e s. unfold email_taken, findOne.
  induction (users s) as [| u rest IH]; cbn [existsb find]; intros Hno;
    [reflexivity |].
  apply orb_false_iff in Hno. destruct Hno as [Hu Hrest].
  rewrite Hu, andb_false_r. apply IH. exact Hrest.
Qed.

Lemma sign_up_accepted : forall env s e p,
  acceptable e p s ->
  email_taken e s = false ->
  let r := handle (sign_up env (Some e) (Some p)) s in
  outcome r = Sent 201 (UserBody (Some (user_id (signed_up env e p s), e))) /\
  store r = with_users (fun table => table ++ [signed_up env e p s]) s /\
  trace r = [store r].
Proof.
  intros env s e p [Hfree [Hsp [Hws [Hst [[domain [Hd Hdm]] [[Hmin Hmax] Hpw]]]]]]
    Hunused r.
  subst r. unfold handle, sign_up, transaction.
  rewrite Hd. unfold bind, query, update, unless_taken.
  cbn [result final writes].
  rewrite Hfree, Hsp, Hws, Hst, Hdm. cbn [negb].
  assert (Hlen : (List.length p <? passwordLengthMin)
                 || (passwordLengthMax <? List.length p) = false).
  { apply orb_false_iff. split; apply Nat.ltb_ge; assumption. }
  rewrite Hlen, Hpw, Hunused. cbn [result final writes app].
  assert (Hnew : findOne (where_email e)
                   (users (User_create env e (bcrypt_hash env p saltRounds) s))
                 = Some (signed_up env e p s)).
  { unfold User_create, with_users. cbn [users].
    apply findOne_app_new; [exact Hfree | reflexivity |].
    unfold where_email. apply jsstring_eqb_refl. }
  rewrite Hnew. cbn. repeat split; reflexivity.
Qed.

(** With an email that a row of the table holds, a request that passes every
    check of the handler is refused by the storage layer. *)
Lemma sign_up_refused_by_storage : forall env s e p,
  acceptable e p s ->
  email_taken e s = true ->
  outcome (handle (sign_up env (Some e) (Some p)) s) =
    Forwarded (UniqueConstraintError "users.email").
Proof.
  intros env s e p [Hfree [Hsp [Hws [Hst [[domain [Hd Hdm]] [[Hmin Hmax] Hpw]]]]]]
    Hused.
  unfold handle, sign_up, transaction.
  rewrite Hd. unfold bind, query, update, unless_taken.
  cbn [result final writes].
  rewrite Hfree, Hsp, Hws, Hst, Hdm. cbn [negb].
  assert (Hlen : (List.length p <? passwordLengthMin)
                 || (passwordLengthMax <? List.length p) = false).
  { apply orb_false_iff. split; apply Nat.ltb_ge; assumption. }
  rewrite Hlen, Hpw, Hused. reflexivity.
Qed.

Lemma sign_up_only_writes_on_success : forall env s email password,
  let r := handle (sign_up env email password) s in
  (forall code b, outcome r = Sent code b ->
     exists e p, email = Some e /\ password = Some p /\ acceptable e p s /\
                 email_taken e s = false) /\
  (forall err, outcome r = Forwarded err -> store r = s /\ trace r = []) /\
  outcome r <> Pending.
Proof.
  intros env s email password r. subst r.
  unfold handle, sign_up, transaction.
  destruct email as [e |]; [| cbn; repeat split; intros; discriminate].
  unfold bind, query, update, unless_taken. cbn [result final writes].
  destruct (findOne (where_email e) (users s)) eqn:Hfree;
    [cbn; repeat split; intros; discriminate |].
  destruct (String_match e specialCharacters) eqn:Hsp;
    [cbn; repeat split; intros; discriminate |].
  destruct (String_match e emptySpace) eqn:Hws;
    [cbn; repeat split; intros; discriminate |].
  destruct (String_match e startEnglishNumber) eqn:Hst;
    [| cbn; repeat split; intros; discriminate].
  cbn [negb].
  destruct (nth_error (String_split (ch "@") e) 1) as [domain |] eqn:Hd;
    [| cbn; repeat split; intros; discriminate].
  destruct (String_match domain emailAfterAtPattern) eqn:Hdm;
    [| cbn; repeat split; intros; discriminate].
  cbn [negb].
  destruct password as [p |]; [| cbn; repeat split; intros; discriminate].
  destruct ((List.length p <? passwordLengthMin)
            || (passwordLengthMax <? List.length p)) eqn:Hlen;
    [cbn; repeat split; intros; discriminate |].
  destruct (String_match p emptySpace) eqn:Hpw;
    [cbn; repeat split; intros; discriminate |].
  destruct (email_taken e s) eqn:Hunused;
    [cbn; repeat split; intros; discriminate |].
  apply orb_false_iff in Hlen. destruct Hlen as [Hmin Hmax].
  apply Nat.ltb_ge in Hmin. apply Nat.ltb_ge in Hmax.
  cbn [result final writes app outcome store trace send ret].
  split; [| split].
  - intros code b _. exists e, p. unfold acceptable. eauto 13.
  - intros err Herr. discriminate.
  - discriminate.
Qed.

(** Sign-up creates a user exactly when the request is acceptable and no
    row of the users table, soft-deleted ones included, holds the email.
    Acceptable: no active user has the email, the email passes the four
    tests of its form, and the password has 8 to 15 characters and no white
    space. The user is then appended with the hash of the password and the
    request answered with 201. An acceptable request whose email is held by
    a soft-deleted row is refused by the storage layer. Every request that
    is not answered with 201 ends in an error and writes nothing. *)
Lemma sign_up_creates_iff_acceptable : forall env s email password,
  let r := handle (sign_up env email password) s in
  (forall e p, email = Some e -> password = Some p -> acceptable e p s ->
     email_taken e s = false ->
     outcome r = Sent 201 (UserBody (Some (user_id (signed_up env e p s), e))) /\
     store r = with_users (fun table => table ++ [signed_up env e p s]) s) /\
  (forall e p, email = Some e -> password = Some p -> acceptable e p s ->
     email_taken e s = true ->
     outcome r = Forwarded (UniqueConstraintError "users.email")) /\
  (forall code b, outcome r = Sent code b ->
     exists e p, email = Some e /\ password = Some p /\ acceptable e p s /\
                 email_taken e s = false) /\
  (forall err, outcome r = Forwarded err -> store r = s /\ trace r = []) /\
  outcome r <> Pending.
Proof.
  intros env s email password r. subst r. split; [| split].
  - intros e p -> -> Hacc Hunused.
    destruct (sign_up_accepted env s e p Hacc Hunused) as [Ho [Hs _]]. auto.
  - intros e p -> -> Hacc Hused.
    apply sign_up_refused_by_storage; assumption.
  - apply sign_up_only_writes_on_success.
Qed.

Lemma sign_up_creates_iff_acceptable_witness :
  let r := handle (sign_up Demo.env (Some (lit "bob@example.com"))
                     (Some (lit "longenough"))) Demo.open_store in
  let emptied := with_users (destroy 500 (fun _ => true)) Demo.open_store in
  let r' := handle (sign_up Demo.env (Some (lit "alice@example.com"))
                      (Some (lit "longenough"))) emptied in
  (outcome r = Sent 201 (UserBody (Some (2%Z, lit "bob@example.com"))) /\
   List.map password (users (store r)) =
     [lit "hashed:password1"; lit "hashed:longenough"]) /\
  (List.map active (users emptied) = [false] /\
   outcome r' = Forwarded (UniqueConstraintError "users.email") /\
   store r' = emptied).
Proof.
  assert (Hform : forall s e,
            findOne (where_email e) (users s) = None ->
            e = lit "bob@example.com" \/ e = lit "alice@example.com" ->
            acceptable e (lit "longenough") s).
  { intros s e Hfree He. unfold acceptable. split; [exact Hfree |].
    destruct He as [-> | ->]; repeat split; try (vm_compute; reflexivity);
      try (vm_compute; lia);
      exists (lit "example.com"); split; vm_compute; reflexivity. }
  split.
  - destruct (sign_up_creates_iff_acceptable Demo.env Demo.open_store
                (Some (lit "bob@example.com")) (Some (lit "longenough")))
      as [Hacc _].
    destruct (Hacc (lit "bob@example.com") (lit "longenough") eq_refl eq_refl)
      as [Ho Hs].
    + apply Hform; [vm_compute; reflexivity | left; reflexivity].
    + vm_compute. reflexivity.
    + split; [exact Ho |]. rewrite Hs. reflexivity.
  - destruct (sign_up_creates_iff_acceptable Demo.env
                (with_users (destroy 500 (fun _ => true)) Demo.open_store)
                (Some (lit "alice@example.com")) (Some (lit "longenough")))
      as [_ [Hrefused [_ [Hfail _]]]].
    assert (Ho : outcome (handle (sign_up Demo.env (Some (lit "alice@example.com"))
                                    (Some (lit "longenough")))
                            (with_users (destroy 500 (fun _ => true)) Demo.open_store))
                 = Forwarded (UniqueConstraintError "users.email")).
    { apply (Hrefused (lit "alice@example.com") (lit "longenough")
               eq_refl eq_refl).
      - apply Hform; [vm_compute; reflexivity | right; reflexivity].
      - vm_compute. reflexivity. }
    split; [reflexivity |]. split; [exact Ho |].
    destruct (Hfail _ Ho) as [Hs _]. exact Hs.
Defined.

(** Sign-up keeps the emails of the active users distinct. *)
Lemma sign_up_keeps_emails_unique : forall env s email password,
  emails_unique s ->
  emails_unique (store (handle (sign_up env email password) s)).
Proof.
  intros env s email password Huniq.
  destruct (sign_up_only_writes_on_success env s email password)
    as [Hsent [Hfail Hpending]].
  destruct (outcome (handle (sign_up env email password) s)) as [code b | err |]
    eqn:Ho.
  - destruct (Hsent code b eq_refl) as [e [p [-> [-> [Hacc Hunused]]]]].
    destruct (sign_up_accepted env s e p Hacc Hunused) as [_ [Hs _]].
    rewrite Hs. unfold emails_unique, with_users. cbn [users].
    rewrite findAll_app, map_app. cbn.
    apply NoDup_app_fresh; [exact Huniq |].
    intros Hin. apply in_map_iff in Hin. destruct Hin as [u [He Hu]].
    apply in_findAll in Hu. destruct Hu as [Hu [Hact _]].
    destruct Hacc as [Hfree _].
    pose proof (findOne_none (where_email e) (users s) u Hfree Hu Hact) as Hne.
    unfold where_email in Hne. rewrite He, jsstring_eqb_refl in Hne.
    discriminate.
  - destruct (Hfail err eq_refl) as [-> _]. exact Huniq.
  - contradiction.
Qed.

Lemma sign_up_keeps_emails_unique_witness :
  emails_unique Demo.open_store /\
  emails_unique (store (handle (sign_up Demo.env (Some (lit "bob@example.com"))
                                  (Some (lit "longenough"))) Demo.open_store)).
Proof.
  assert (H0 : emails_unique Demo.open_store).
  { unfold emails_unique. cbn. constructor; [intros [] | constructor]. }
  split; [exact H0 |].
  apply (sign_up_keeps_emails_unique Demo.env Demo.open_store). exact H0.
Defined.

End SignUpStore.

(** ** Posts and comments *)

Section PostCommentFacts.
Import Posts PostsRest CommentsRest Comments Express Integrity.



Lemma insert_newest_perm : forall p l,
  Permutation (p :: l) (PostsRest.insert_newest p l).
Proof.
  intros p l. induction l as [| h t IH]; simpl.
  - apply Permutation_refl.
  - destruct (post_createdAt h <? post_createdAt p)%Z.
    + apply Permutation_refl.
    + eapply perm_trans; [apply perm_swap |].
      apply perm_skip. exact IH.
Qed.

Lemma insert_newest_sorted : forall p l,
  Sorted newer_or_equal l -> Sorted newer_or_equal (PostsRest.insert_newest p l).
Proof.
  intros p l Hs. induction Hs as [| h t Ht IH Hh]; simpl.
  - constructor; constructor.
  - destruct (post_createdAt h <? post_createdAt p)%Z eqn:E.
    + constructor; [constructor; assumption |].
      constructor. unfold newer_or_equal. apply Z.ltb_lt in E. lia.
    + constructor; [exact IH |].
      apply Z.ltb_ge in E.
      destruct t as [| h' t']; simpl.
      * constructor. exact E.
      * destruct (post_createdAt h' <? post_createdAt p)%Z.
        -- constructor. exact E.
        -- constructor. inversion Hh. assumption.
Qed.

(** Listing the posts answers 200 with every post of the table exactly
    once, newest first, and writes nothing. *)
Lemma posts_get_newest_first : forall s,
  exists allPosts,
    answer (respond posts_get s) = Answered 200 allPosts /\
    Permutation (posts s) allPosts /\
    Sorted newer_or_equal allPosts /\
    after (respond posts_get s) = s /\ journal (respond posts_get s) = [].
Proof.
  intros s. exists (newest_first (posts s)).
  repeat split.
  - unfold newest_first. induction (posts s) as [| p l IH]; simpl.
    + constructor.
    + eapply perm_trans;
        [apply perm_skip; exact IH | apply insert_newest_perm].
  - unfold newest_first. induction (posts s) as [| p l IH]; simpl.
    + constructor.
    + apply insert_newest_sorted. exact IH.
Qed.

Lemma comments_post_cases : forall env s postId content,
  let r := handle (comments_post env postId content) s in
  (forall code b, outcome r = Sent code b ->
     exists post text,
       In post (posts s) /\ where_number postId (post_id post) = true /\
       content = Str text /\ (exists c, In c text /\ c <> 32%N) /\
       code = 201 /\
       b = CommentBody (Some (new_comment env text (post_id post) (comments s))) /\
       store r = with_comments
                   (fun table => table ++
                      [new_comment env text (post_id post) (comments s)]) s) /\
  (forall err, outcome r = Forwarded err -> store r = s /\ trace r = []) /\
  outcome r <> Pending.
Proof.
  intros env s postId content r. subst r.
  unfold handle, comments_post, transaction.
  destruct (negb (ToBoolean postId) || negb (ToBoolean content));
    [cbn; repeat split; intros; discriminate |].
  destruct (negb (Number_isInteger postId));
    [cbn; repeat split; intros; discriminate |].
  destruct content as [| | b | x | text | items | props];
    try (cbn; repeat split; intros; discriminate).
  destruct (jsstring_eqb (remove_spaces text) []) eqn:Hblank;
    [cbn; repeat split; intros; discriminate |].
  unfold bind, query, update. cbn [result final writes].
  destruct (find (fun p => where_number postId (post_id p)) (posts s))
    as [post |] eqn:Hpost; [| cbn; repeat split; intros; discriminate].
  apply find_some in Hpost. destruct Hpost as [Hin Hkey].
  cbn [result final writes app outcome store trace send ret].
  split; [| split]; [| intros; discriminate | discriminate].
  intros code b Hsent. injection Hsent as <- <-.
  exists post, text. repeat split; try assumption.
  destruct (remove_spaces text) as [| c rest] eqn:Hrem.
  - rewrite jsstring_eqb_refl in Hblank. discriminate.
  - assert (Hc : In c (remove_spaces text)) by (rewrite Hrem; left; reflexivity).
    unfold remove_spaces in Hc. apply filter_In in Hc. destruct Hc as [Hc Hne].
    exists c. split; [exact Hc |].
    apply negb_true_iff, N.eqb_neq in Hne. exact Hne.
Qed.

(** A comment is created only for a post of the store and with a content
    that holds more than spaces, the request is then answered with 201 and
    the new row; a request that ends in an error has written nothing. *)
Lemma comments_post_only_for_posts : forall env s postId content,
  let r := handle (comments_post env postId content) s in
  (forall code b, outcome r = Sent code b ->
     exists post text,
       In post (posts s) /\ where_number postId (post_id post) = true /\
       content = Str text /\ (exists c, In c text /\ c <> 32%N) /\
       code = 201 /\
       b = CommentBody (Some (new_comment env text (post_id post) (comments s))) /\
       store r = with_comments
                   (fun table => table ++
                      [new_comment env text (post_id post) (comments s)]) s) /\
  (forall err, outcome r = Forwarded err -> store r = s /\ trace r = []) /\
  outcome r <> Pending.
Proof. intros env s postId content. apply comments_post_cases. Qed.

Lemma comments_post_only_for_posts_witness :
  let r := handle (comments_post Demo.env (Num 1) (Str (lit "on its way")))
             Demo.open_store in
  let r' := handle (comments_post Demo.env (Num 7) (Str (lit "on its way")))
              Demo.open_store in
  (exists b, outcome r = Sent 201 b) /\ store r' = Demo.open_store.
Proof.
  intros r r'.
  destruct (comments_post_only_for_posts Demo.env Demo.open_store (Num 1)
              (Str (lit "on its way"))) as [Hsent _].
  destruct (comments_post_only_for_posts Demo.env Demo.open_store (Num 7)
              (Str (lit "on its way"))) as [_ [Hfail _]].
  split.
  - destruct (Hsent 201
                (CommentBody (Some (new_comment Demo.env (lit "on its way") 1
                                      [Demo.answer None]))))
      as [post [text [_ [_ [_ [_ [_ [Hb _]]]]]]]].
    + vm_compute. reflexivity.
    + eexists. fold r. vm_compute. reflexivity.
  - destruct (Hfail (HttpException 400 (Text "해당 포스트가 없습니다."))) as [Hs _].
    + vm_compute. reflexivity.
    + exact Hs.
Defined.

(** Posting a comment keeps every comment attached to a post of the
    store. *)
Lemma comments_post_keeps_posts : forall env s postId content,
  comments_have_posts s ->
  comments_have_posts (store (handle (comments_post env postId content) s)).
Proof.
  intros env s postId content Hinv.
  destruct (comments_post_cases env s postId content)
    as [Hsent [Hfail Hpending]].
  destruct (outcome (handle (comments_post env postId content) s))
    as [code b | err |] eqn:Ho.
  - destruct (Hsent code b eq_refl)
      as [post [text [Hin [_ [_ [_ [_ [_ Hs]]]]]]]].
    rewrite Hs. intros c Hc. cbn in Hc. apply in_app_iff in Hc.
    destruct Hc as [Hc | [<- | []]].
    + apply Hinv. exact Hc.
    + exists post. split; [exact Hin | reflexivity].
  - destruct (Hfail err eq_refl) as [-> _]. exact Hinv.
  - contradiction.
Qed.

Lemma comments_post_keeps_posts_witness :
  comments_have_posts Demo.open_store /\
  comments_have_posts
    (store (handle (comments_post Demo.env (Num 1) (Str (lit "on its way")))
              Demo.open_store)).
Proof.
  assert (H0 : comments_have_posts Demo.open_store).
  { intros c [<- | []]. exists Demo.question. split; [left |]; reflexivity. }
  split; [exact H0 |].
  apply (comments_post_keeps_posts Demo.env Demo.open_store). exact H0.
Defined.

(** The list of comments is never served: the page of a query is a string,
    so the request ends with status 400 at [Number.isInteger(page)] at the
    latest, whatever the query and the pagination helper are. *)
Lemma comments_list_always_rejected :
  forall pagination Number_toString page limit s,
    let r := respond (comments_list pagination Number_toString page limit) s in
    (exists msg, answer r = Failed (HttpException 400 msg)) /\
    after r = s /\ journal r = [].
Proof.
  intros pagination Number_toString page limit s r. subst r.
  unfold respond, comments_list.
  destruct page as [page |]; [| cbn; eauto].
  rewrite Number_isInteger_string.
  match goal with
  | |- context [if ?c then bad_request _ else _] => destruct c
  end; cbn; eauto.
Qed.

End PostCommentFacts.

(** ** Stations: creating and listing *)

Section StationBatchFacts.
Import Stations StationsRest Integrity.

(** One turn of the loop either appends one station, in range and with a
    name no active station has, or throws and writes nothing. *)
Lemma stations_post_item_spec : forall env data n s,
  let r := stations_post_item env data n s in
  (exists nm la lo,
     result r = Ok (new_station env nm la lo (stations s)) /\
     final r = with_stations
                 (fun table => table ++ [new_station env nm la lo (stations s)]) s /\
     writes r = [final r] /\
     ((-90 <? la) && (la <? 90))%float = true /\
     ((-180 <? lo) && (lo <? 180))%float = true /\
     findOne (where_name nm) (stations s) = None) \/
  (exists e, result r = Throw e /\ final r = s /\ writes r = []).
Proof.
  intros env data n s r. subst r.
  unfold stations_post_item, property, bind, ret, query, update, unless_taken.
  destruct (get_prop data n) as [item |] eqn:Hitem;
    cbn [result final writes app throw]; [| right; eauto].
  destruct (Object_keys item) as [keys |] eqn:Hk;
    cbn [result final writes app throw]; [| right; eauto].
  assert (Hn : item <> Null) by (intros ->; discriminate).
  assert (Hu : item <> Undefined) by (intros ->; discriminate).
  destruct (get_prop_total item (lit "name") Hn Hu) as [vn Hvn].
  destruct (get_prop_total item (lit "latitude") Hn Hu) as [vla Hvla].
  destruct (get_prop_total item (lit "longitude") Hn Hu) as [vlo Hvlo].
  destruct (List.length keys =? 0)%nat; [right; cbn; eauto |].
  destruct (negb (TypeTag_eqb (typeof item) TObject)
            || match item with Null => true | _ => false end);
    [right; cbn; eauto |].
  destruct (negb (forallb (includes keys) requiredKeys)
            || negb (List.length keys =? List.length requiredKeys)%nat);
    [right; cbn; eauto |].
  rewrite Hvn, Hvla, Hvlo. cbn [result final writes app].
  destruct vn; try (right; cbn; eauto; fail).
  destruct vla; try (right; cbn; eauto; fail).
  destruct (negb ((-90 <? x)%float && (x <? 90)%float)) eqn:Hla;
    [right; cbn; eauto |].
  destruct vlo; try (right; cbn; eauto; fail).
  destruct (negb ((-180 <? x0)%float && (x0 <? 180)%float)) eqn:Hlo;
    [right; cbn; eauto |].
  cbn [result final writes app].
  destruct (findOne (where_name s0) (stations s)) eqn:Hdup;
    [right; cbn; eauto |].
  destruct (name_taken s0 s) eqn:Hunused; [right; cbn; eauto |].
  left. exists s0, x, x0. cbn [result final writes app].
  apply negb_false_iff in Hla. apply negb_false_iff in Hlo.
  repeat split; assumption.
Qed.

(** What one turn keeps, the whole loop keeps. *)
Lemma stations_post_loop_keeps : forall (P : Store -> Prop) env data,
  (forall n s, P s -> P (final (stations_post_item env data n s))) ->
  forall keys acc s, P s -> P (final (stations_post_loop env data keys acc s)).
Proof.
  intros P env data Hstep keys.
  induction keys as [| n rest IH]; intros acc s Hs.
  - exact Hs.
  - cbn [stations_post_loop]. unfold bind.
    pose proof (Hstep n s Hs) as H1.
    destruct (result (stations_post_item env data n s)) as [st | e].
    + cbn [final]. apply IH. exact H1.
    + exact H1.
Qed.

Lemma stations_post_keeps : forall (P : Store -> Prop) env data,
  (forall n s, P s -> P (final (stations_post_item env data n s))) ->
  forall s, P s -> P (store (handle (stations_post env data) s)).
Proof.
  intros P env data Hstep s Hs.
  unfold handle, stations_post. cbn [store].
  destruct (negb (ToBoolean data)); [exact Hs |].
  unfold bind.
  pose proof (stations_post_loop_keeps P env data Hstep (for_in_keys data) [] s Hs)
    as H1.
  destruct (result (stations_post_loop env data (for_in_keys data) [] s));
    exact H1.
Qed.

(** Creating stations only appends to the table of stations: the rows that
    were there stay as they are, and no other table is touched, whether the
    request succeeds or stops at an item. *)
Lemma stations_post_only_appends : forall env data s,
  let r := handle (stations_post env data) s in
  (exists added, stations (store r) = stations s ++ added) /\
  users (store r) = users s /\ lockers (store r) = lockers s /\
  posts (store r) = posts s /\ comments (store r) = comments s.
Proof.
  intros env data s.
  apply (stations_post_keeps
           (fun s' => (exists added, stations s' = stations s ++ added) /\
                      users s' = users s /\ lockers s' = lockers s /\
                      posts s' = posts s /\ comments s' = comments s)).
  - intros n s1 [[added Ha] [Hu [Hl [Hp Hc]]]].
    destruct (stations_post_item_spec env data n s1)
      as [[nm [la [lo [_ [Hf _]]]]] | [e [_ [Hf _]]]]; rewrite Hf.
    + cbn. rewrite Ha, <- app_assoc. eauto 10.
    + eauto 10.
  - split; [exists []; rewrite app_nil_r; reflexivity | auto].
Qed.

(** Every station that the route creates lies strictly inside the bounds:
    a store whose stations are in range stays so. *)
Lemma stations_post_keeps_coordinates : forall env data s,
  coordinates_in_range s ->
  coordinates_in_range (store (handle (stations_post env data) s)).
Proof.
  intros env data s. apply stations_post_keeps.
  intros n s1 Hinv.
  destruct (stations_post_item_spec env data n s1)
    as [[nm [la [lo [_ [Hf [_ [Hla [Hlo _]]]]]]]] | [e [_ [Hf _]]]]; rewrite Hf.
  - intros st Hst. cbn in Hst. apply in_app_iff in Hst.
    destruct Hst as [Hst | [<- | []]]; [apply Hinv; exact Hst |].
    split; assumption.
  - exact Hinv.
Qed.

Lemma stations_post_keeps_coordinates_witness :
  coordinates_in_range Demo.open_store /\
  coordinates_in_range
    (store (handle (stations_post Demo.env
                      (Arr [Demo.station_item "a" 89.5 0;
                            Demo.station_item "b" 90 0])) Demo.open_store)).
Proof.
  assert (H0 : coordinates_in_range Demo.open_store).
  { intros st [<- | []]. split; reflexivity. }
  split; [exact H0 |].
  apply (stations_post_keeps_coordinates Demo.env _ Demo.open_store). exact H0.
Defined.

(** Creating stations keeps the names of the active stations distinct. *)
Lemma stations_post_keeps_names_unique : forall env data s,
  names_unique s ->
  names_unique (store (handle (stations_post env data) s)).
Proof.
  intros env data s. apply stations_post_keeps.
  intros n s1 Hinv.
  destruct (stations_post_item_spec env data n s1)
    as [[nm [la [lo [_ [Hf [_ [_ [_ Hfree]]]]]]]] | [e [_ [Hf _]]]]; rewrite Hf.
  - unfold names_unique, with_stations. cbn [stations].
    rewrite findAll_app, map_app. cbn.
    apply NoDup_app_fresh; [exact Hinv |].
    intros Hin. apply in_map_iff in Hin. destruct Hin as [st [Hname Hst]].
    apply in_findAll in Hst. destruct Hst as [Hst [Hact _]].
    pose proof (findOne_none (where_name nm) (stations s1) st Hfree Hst Hact)
      as Hne.
    unfold where_name in Hne. rewrite Hname, jsstring_eqb_refl in Hne.
    discriminate.
  - exact Hinv.
Qed.

Lemma stations_post_keeps_names_unique_witness :
  names_unique Demo.open_store /\
  names_unique
    (store (handle (stations_post Demo.env
                      (Arr [Demo.station_item "a" 89.5 0;
                            Demo.station_item "a" 10 0])) Demo.open_store)).
Proof.
  assert (H0 : names_unique Demo.open_store).
  { unfold names_unique. cbn. constructor; [intros [] | constructor]. }
  split; [exact H0 |].
  apply (stations_post_keeps_names_unique Demo.env _ Demo.open_store). exact H0.
Defined.

(** When the loop completes it has made one station per key and returns
    them in the order of the keys, after the ones it started with. *)
Lemma stations_post_loop_result : forall env data keys acc s newStations,
  result (stations_post_loop env data keys acc s) = Ok newStations ->
  exists added,
    newStations = acc ++ added /\
    List.length added = List.length keys /\
    stations (final (stations_post_loop env data keys acc s)) =
      stations s ++ added.
Proof.
  intros env data keys.
  induction keys as [| n rest IH]; intros acc s newStations Hres.
  - cbn in Hres. injection Hres as <-. exists []. cbn.
    rewrite !app_nil_r. auto.
  - cbn [stations_post_loop] in *. unfold bind in *.
    destruct (stations_post_item_spec env data n s)
      as [[nm [la [lo [Hr [Hf _]]]]] | [e [Hr _]]]; rewrite Hr in *.
    + cbn [result final] in *.
      destruct (IH _ _ _ Hres) as [added [Hacc [Hlen Hst]]].
      exists (new_station env nm la lo (stations s) :: added).
      rewrite Hacc, Hst, Hf. cbn. rewrite <- !app_assoc. cbn.
      repeat split; try reflexivity. rewrite Hlen. reflexivity.
    + discriminate.
Qed.

(** A batch answered with 201 created one station per entry, and the body
    of the response is the list of the rows added to the table, in order. *)
Lemma stations_post_answer_lists_created : forall env data s code newStations,
  outcome (handle (stations_post env data) s) = Sent code (StationsBody newStations) ->
  code = 201 /\
  stations (store (handle (stations_post env data) s)) = stations s ++ newStations /\
  List.length newStations = List.length (for_in_keys data).
Proof.
  intros env data s code newStations.
  unfold handle, stations_post. cbn [outcome store].
  destruct (negb (ToBoolean data)); [cbn; discriminate |].
  unfold bind.
  destruct (result (stations_post_loop env data (for_in_keys data) [] s))
    as [l |] eqn:Hres; cbn [result final send ret]; [| discriminate].
  intros Hsent. injection Hsent as <- <-.
  destruct (stations_post_loop_result env data _ _ _ _ Hres)
    as [added [Hl [Hlen Hst]]].
  cbn in Hl. subst l. auto.
Qed.

Lemma stations_post_answer_lists_created_witness :
  let data := Arr [Demo.station_item "a" 89.5 0; Demo.station_item "b" 10 20] in
  let r := handle (stations_post Demo.env data) Demo.open_store in
  List.map name (stations (store r)) = [lit "seoul"; lit "a"; lit "b"].
Proof.
  intros data r.
  destruct (stations_post_answer_lists_created Demo.env data Demo.open_store 201
              [new_station Demo.env (lit "a") 89.5 0 [Demo.seoul None];
               new_station Demo.env (lit "b") 10 20
                 [Demo.seoul None;
                  new_station Demo.env (lit "a") 89.5 0 [Demo.seoul None]]])
    as [_ [Hst _]].
  - vm_compute. reflexivity.
  - fold r in Hst. rewrite Hst. reflexivity.
Defined.

(** An entry [null] that the loop reaches ends the request in a TypeError,
    not in status 400, and the stations made for the entries before it
    stay. *)
Lemma stations_post_null_entry : forall env data s pre n post created,
  for_in_keys data = pre ++ n :: post ->
  get_prop data n = Some Null ->
  result (stations_post_loop env data pre [] s) = Ok created ->
  let r := handle (stations_post env data) s in
  outcome r = Forwarded (TypeError "Cannot convert undefined or null to object") /\
  stations (store r) = stations s ++ created.
Proof.
  intros env data s pre n post created Hkeys Hnull Hpre r. subst r.
  assert (Htruthy : ToBoolean data = true).
  { destruct data as [| | b | x | str | items | props]; try reflexivity;
      try (destruct pre; discriminate Hkeys).
    destruct str; [destruct pre; discriminate Hkeys | reflexivity]. }
  assert (Hloop : forall keys acc s1 l,
             result (stations_post_loop env data keys acc s1) = Ok l ->
             let r := stations_post_loop env data (keys ++ n :: post) acc s1 in
             result r = Throw (TypeError "Cannot convert undefined or null to object")
             /\ final r = final (stations_post_loop env data keys acc s1)).
  { induction keys as [| k rest IH]; intros acc s1 l Hl.
    - cbn [app stations_post_loop]. unfold bind, stations_post_item, property.
      rewrite Hnull. cbn. split; reflexivity.
    - cbn [app stations_post_loop] in *. unfold bind in *.
      destruct (result (stations_post_item env data k s1)) as [st | e].
      + cbn [result final] in *. eapply IH. exact Hl.
      + discriminate. }
  destruct (Hloop pre [] s created Hpre) as [Hr Hf].
  destruct (stations_post_loop_result env data pre [] s created Hpre)
    as [added [Hadd [_ Hst]]].
  cbn in Hadd. subst added.
  unfold handle, stations_post. rewrite Htruthy, Hkeys. cbn [negb].
  unfold bind. rewrite Hr. cbn [result final outcome store].
  rewrite Hf. split; [reflexivity | exact Hst].
Qed.

Lemma stations_post_null_entry_witness :
  let r := handle (stations_post Demo.env
                     (Arr [Demo.station_item "a" 89.5 0; Null])) Demo.empty in
  outcome r = Forwarded (TypeError "Cannot convert undefined or null to object") /\
  List.map name (stations (store r)) = [lit "a"].
Proof.
  intros r.
  destruct (stations_post_null_entry Demo.env
              (Arr [Demo.station_item "a" 89.5 0; Null]) Demo.empty
              [lit "0"] (lit "1") []
              [new_station Demo.env (lit "a") 89.5 0 []])
    as [Ho Hst].
  - reflexivity.
  - reflexivity.
  - vm_compute. reflexivity.
  - fold r in Ho, Hst. split; [exact Ho |]. rewrite Hst. reflexivity.
Defined.

(** A name that only a deleted station holds passes the handler's own check
    and is refused by the storage layer: the request ends in an error that
    is not of status 400, and no station is added. *)
Example stations_post_name_of_deleted_station :
  let r := handle (stations_post Demo.env (Arr [Demo.station_item "seoul" 10 20]))
             Demo.closed_store in
  List.map active (stations Demo.closed_store) = [false] /\
  outcome r = Forwarded (UniqueConstraintError "stations.name") /\
  store r = Demo.closed_store.
Proof. repeat split; vm_compute; reflexivity. Qed.

(** The loop stops at an item out of range at the latest, and ends in the
    store that the turns before the item produce. *)
Lemma stations_post_loop_out_of_range : forall env data n post item,
  get_prop data n = Some item ->
  out_of_range item ->
  forall pre acc s,
    let r := stations_post_loop env data (pre ++ n :: post) acc s in
    (exists e, result r = Throw e) /\
    final r = final (stations_post_loop env data pre acc s) /\
    (forall created,
       result (stations_post_loop env data pre acc s) = Ok created ->
       exists msg, result r = Throw (HttpException 400 msg)).
Proof.
  intros env data n post item Hitem Hbad pre.
  induction pre as [| n' pre IH]; intros acc s.
  - destruct (stations_post_item_out_of_range env data n s item Hitem Hbad)
      as [[msg Hr] [Hf _]].
    cbn [app stations_post_loop]. unfold bind.
    rewrite Hr. cbn [result final writes ret].
    split; [eauto | split; [exact Hf | eauto]].
  - cbn [app stations_post_loop]. unfold bind.
    destruct (result (stations_post_item env data n' s)) as [st | e].
    + cbn [result final writes]. apply IH.
    + cbn [result final writes].
      split; [eauto | split; [reflexivity | intros created H; discriminate H]].
Qed.

(** However the entries before it fare, an item whose latitude is not
    strictly between -90 and 90, or whose longitude is not strictly between
    -180 and 180, gets no station: the request ends in an error, and the
    store is the one left by the turns of the loop before the item. When
    each of those turns made its station, the error has status 400. *)
Lemma out_of_range_item_never_created :
  forall env data s pre n post item,
    for_in_keys data = pre ++ n :: post ->
    get_prop data n = Some item ->
    out_of_range item ->
    let r := handle (stations_post env data) s in
    (exists e, outcome r = Forwarded e) /\
    store r = final (stations_post_loop env data pre [] s) /\
    (forall created,
       result (stations_post_loop env data pre [] s) = Ok created ->
       status_of (outcome r) = Some 400).
Proof.
  intros env data s pre n post item Hkeys Hitem Hbad r. subst r.
  assert (Htruthy : ToBoolean data = true).
  { destruct data as [| | b | x | str | items | props]; try reflexivity;
      try (destruct pre; discriminate Hkeys).
    destruct str; [destruct pre; discriminate Hkeys | reflexivity]. }
  unfold handle, stations_post. rewrite Htruthy. cbn [negb].
  destruct (stations_post_loop_out_of_range env data n post item Hitem Hbad
              pre [] s) as [[e Hr] [Hf H400]].
  rewrite Hkeys. unfold bind.
  rewrite Hr. cbn [result final writes outcome store status_of].
  split; [eauto | split; [exact Hf |]].
  intros created Hpre. destruct (H400 created Hpre) as [msg Hmsg].
  rewrite Hr in Hmsg. injection Hmsg as ->. reflexivity.
Qed.

Lemma out_of_range_item_never_created_witness :
  let data := Arr [Demo.station_item "a" 89.5 0; Demo.station_item "b" 90 0] in
  let r := handle (stations_post Demo.env data) Demo.empty in
  status_of (outcome r) = Some 400 /\
  List.map name (stations (store r)) = [lit "a"].
Proof.
  intros data r.
  destruct (out_of_range_item_never_created Demo.env data Demo.empty
              [lit "0"] (lit "1") [] (Demo.station_item "b" 90 0))
    as [_ [Hstore Hstatus]].
  - reflexivity.
  - reflexivity.
  - left. exists 90%float. split; reflexivity.
  - split.
    + apply (Hstatus [new_station Demo.env (lit "a") 89.5 0 []]).
      vm_compute. reflexivity.
    + fold r in Hstore. rewrite Hstore. reflexivity.
Defined.

(** The list of stations answers 200 with exactly the active stations and
    writes nothing. *)
Lemma stations_list_active : forall s,
  exists allStations,
    outcome (handle stations_list s) = Sent 200 (StationsBody allStations) /\
    (forall st, In st allStations <-> In st (stations s) /\ active st = true) /\
    store (handle stations_list s) = s /\ trace (handle stations_list s) = [].
Proof.
  intros s. exists (findAll (fun _ => true) (stations s)).
  repeat split; try reflexivity.
  - apply in_findAll in H. tauto.
  - apply in_findAll in H. tauto.
  - intros [Hin Hact]. apply in_findAll. auto.
Qed.

End StationBatchFacts.

(** ** Deleting and restoring *)

Section DeleteRestoreFacts.
Import Stations StationsRest Comments LifeCycle.

Lemma findOne_all_inactive : forall (R : Type) `{Paranoid R} cond (table : list R),
  (forall r, In r table -> cond r = true -> active r = false) ->
  findOne cond table = None.
Proof.
  intros R HR cond table Hall. unfold findOne.
  induction table as [| h t IH]; simpl; [reflexivity |].
  destruct (active h && cond h) eqn:E.
  - apply andb_true_iff in E. destruct E as [Ha Hc].
    rewrite (Hall h) in Ha by (auto; left; reflexivity). discriminate.
  - apply IH. intros r Hr. apply Hall. right. exact Hr.
Qed.

Lemma station_revived : forall t (st : Station),
  active st = true -> set_deletedAt None (set_deletedAt (Some t) st) = st.
Proof.
  intros t [i n la lo c u d] Hact. unfold active in Hact. simpl in *.
  destruct d; [discriminate | reflexivity].
Qed.

Lemma locker_revived : forall t (l : Locker),
  active l = true -> set_deletedAt None (set_deletedAt (Some t) l) = l.
Proof.
  intros t [i sid uid st sd ed c u d] Hact. unfold active in Hact. simpl in *.
  destruct d; [discriminate | reflexivity].
Qed.

(** The store that a successful deletion of a station leaves. *)
Lemma stations_delete_store : forall env id s st,
  id <> [] ->
  findOne (fun st => where_key env id (station_id st)) (stations s) = Some st ->
  store (handle (stations_delete env id) s) =
    with_stations (destroy (now env) (fun st => where_key env id (station_id st)))
      (with_lockers (destroy (now env) (fun l => (stationId l =? station_id st)%Z)) s).
Proof.
  intros env id s st Hid Hf.
  unfold handle, stations_delete.
  destruct id as [| c rest]; [contradiction |]. cbn [ToBoolean negb].
  unfold bind, query, update. cbn [result final writes]. rewrite Hf.
  reflexivity.
Qed.

(** A station that was deleted cannot be deleted again: the second request
    is answered with status 400 and changes nothing. *)
Lemma stations_delete_twice : forall env id s st,
  id <> [] ->
  findOne (fun st => where_key env id (station_id st)) (stations s) = Some st ->
  let s1 := store (handle (stations_delete env id) s) in
  rejected_unchanged (handle (stations_delete env id) s1) s1.
Proof.
  intros env id s st Hid Hf s1.
  assert (Hnone : findOne (fun st => where_key env id (station_id st)) (stations s1)
                  = None).
  { apply findOne_all_inactive. intros st' Hin Hkey.
    subst s1. rewrite (stations_delete_store env id s st Hid Hf) in Hin.
    simpl in Hin. apply in_destroy in Hin.
    destruct Hin as [st0 [_ [[-> Hb] | [-> _]]]].
    - rewrite Hkey, andb_true_r in Hb. exact Hb.
    - apply active_deleted. }
  unfold rejected_unchanged, handle, stations_delete.
  destruct id as [| c rest]; [contradiction |]. cbn [ToBoolean negb].
  unfold bind, query. cbn [result final writes]. rewrite Hnone.
  cbn. repeat split; reflexivity.
Qed.

Lemma stations_delete_twice_witness :
  let s1 := store (handle (stations_delete Demo.env (lit "1")) Demo.open_store) in
  rejected_unchanged (handle (stations_delete Demo.env (lit "1")) s1) s1.
Proof.
  apply (stations_delete_twice Demo.env (lit "1") Demo.open_store (Demo.seoul None)).
  - discriminate.
  - vm_compute. reflexivity.
Defined.

(** After a successful deletion the list of stations shows no station with
    the deleted key. *)
Lemma stations_list_after_delete : forall env id s st allStations,
  id <> [] ->
  findOne (fun st => where_key env id (station_id st)) (stations s) = Some st ->
  outcome (handle stations_list (store (handle (stations_delete env id) s))) =
    Sent 200 (StationsBody allStations) ->
  forall st', In st' allStations -> where_key env id (station_id st') = false.
Proof.
  intros env id s st allStations Hid Hf Hlist st' Hin.
  rewrite (stations_delete_store env id s st Hid Hf) in Hlist.
  unfold handle, stations_list, bind, query in Hlist.
  cbn [result final writes outcome send ret] in Hlist.
  injection Hlist as <-.
  apply in_findAll in Hin. destruct Hin as [Hin [Hact _]].
  simpl in Hin. apply in_destroy in Hin.
  destruct Hin as [st0 [_ [[-> Hb] | [-> _]]]].
  - rewrite Hact in Hb. exact Hb.
  - rewrite active_deleted in Hact. discriminate.
Qed.

Lemma stations_list_after_delete_witness :
  outcome (handle stations_list
             (store (handle (stations_delete Demo.env (lit "1")) Demo.open_store))) =
    Sent 200 (StationsBody []) /\
  (forall st', In st' (@nil Station) ->
               where_key Demo.env (lit "1") (station_id st') = false).
Proof.
  assert (Hl : outcome (handle stations_list
                 (store (handle (stations_delete Demo.env (lit "1"))
                           Demo.open_store))) = Sent 200 (StationsBody []))
    by (vm_compute; reflexivity).
  split; [exact Hl |].
  apply (stations_list_after_delete Demo.env (lit "1") Demo.open_store
           (Demo.seoul None) []).
  - discriminate.
  - vm_compute. reflexivity.
  - exact Hl.
Defined.

(** Deleting a station and then running the two restores of the restore
    handler gives the store back as it was, time stamps included, when the
    station and its lockers were all active before. *)
Lemma delete_then_restore_identity : forall env id s st,
  id <> [] ->
  findOne (fun st => where_key env id (station_id st)) (stations s) = Some st ->
  (forall st', In st' (stations s) -> where_key env id (station_id st') = true ->
               active st' = true) ->
  (forall l, In l (lockers s) -> where_key env id (stationId l) = true ->
             active l = true) ->
  store (handle (restore_station_and_lockers env id)
           (store (handle (stations_delete env id) s))) = s.
Proof.
  intros env id s st Hid Hf Hstations Hlockers.
  rewrite (stations_delete_store env id s st Hid Hf).
  apply findOne_some in Hf. destruct Hf as [_ [_ Hkey]].
  unfold handle, restore_station_and_lockers, bind, update, query.
  cbn [result final writes store send ret].
  destruct s as [us sts ls ps cs]. unfold with_stations, with_lockers.
  cbn [users stations lockers posts comments] in *.
  f_equal.
  - unfold restore, destroy. rewrite map_map.
    rewrite <- (map_id sts) at 2. apply map_ext_in. intros st' Hin.
    destruct (where_key env id (station_id st')) eqn:Hk.
    + rewrite (Hstations st' Hin Hk). cbn [andb]. simpl station_id.
      rewrite Hk. apply station_revived. apply Hstations; assumption.
    + rewrite andb_false_r, Hk. reflexivity.
  - unfold restore, destroy. rewrite map_map.
    rewrite <- (map_id ls) at 2. apply map_ext_in. intros l Hin.
    destruct (where_key env id (stationId l)) eqn:Hk.
    + assert (Heq : (stationId l =? station_id st)%Z = true).
      { apply Z.eqb_eq. eapply where_key_eq; eassumption. }
      rewrite (Hlockers l Hin Hk), Heq. cbn [andb]. simpl stationId.
      rewrite Hk. apply locker_revived. apply Hlockers; assumption.
    + assert (Hne : (stationId l =? station_id st)%Z = false).
      { apply Z.eqb_neq. intros Heq. rewrite Heq, Hkey in Hk. discriminate. }
      rewrite Hne, andb_false_r, Hk. reflexivity.
Qed.

Lemma delete_then_restore_identity_witness :
  store (handle (restore_station_and_lockers Demo.env (lit "1"))
           (store (handle (stations_delete Demo.env (lit "1")) Demo.open_store)))
  = Demo.open_store.
Proof.
  apply (delete_then_restore_identity Demo.env (lit "1") Demo.open_store
           (Demo.seoul None)).
  - discriminate.
  - vm_compute. reflexivity.
  - intros st' [<- | []] _. reflexivity.
  - intros l [<- | [<- | []]] _; reflexivity.
Defined.

(** Restoring a deleted comment: when the id reads as a number other than
    zero and the comments with that key are all deleted, the request is
    answered with 200 and the first of them, and afterwards every comment
    with that key is active; the other comments are left as they were. *)
Lemma comments_restore_revives : forall env id s c,
  ToBoolean (Number_of_string id) = true ->
  In c (comments s) -> where_key env id (comment_id c) = true ->
  (forall c', In c' (comments s) -> where_key env id (comment_id c') = true ->
              active c' = false) ->
  let r := handle (comments_restore env id) s in
  (exists c', outcome r = Sent 200 (CommentBody (Some c')) /\
              In c' (comments (store r)) /\ active c' = true /\
              where_key env id (comment_id c') = true) /\
  (forall c', In c' (comments (store r)) ->
              where_key env id (comment_id c') = true -> active c' = true) /\
  (forall c', where_key env id (comment_id c') = false ->
              (In c' (comments (store r)) <-> In c' (comments s))).
Proof.
  intros env id s c Hnum Hin Hkey Hdead r. subst r.
  assert (Hid : ToBoolean (Str id) = true).
  { destruct id; [vm_compute in Hnum; discriminate | reflexivity]. }
  unfold handle, comments_restore. rewrite Hid, Hnum. cbn [negb].
  unfold bind, query, update. cbn [result final writes].
  rewrite (findOne_all_inactive _ _ _ Hdead).
  cbn [result final writes app outcome store send ret].
  assert (Hlive : forall c', In c' (restore (fun c => where_key env id (comment_id c))
                                      (comments s)) ->
                  where_key env id (comment_id c') = true -> active c' = true).
  { intros c' Hc' Hk. apply in_restore in Hc'.
    destruct Hc' as [c0 [_ [[-> Hn] | [-> _]]]]; [congruence |].
    apply active_restored. }
  split; [| split].
  - assert (Hex : exists c',
              findOne (fun c => where_key env id (comment_id c))
                (comments (with_comments
                             (restore (fun c => where_key env id (comment_id c))) s))
              = Some c').
    { apply findOne_exists with (r := set_deletedAt None c).
      - simpl. unfold restore. apply in_map_iff. exists c.
        rewrite Hkey. auto.
      - apply active_restored.
      - exact Hkey. }
    destruct Hex as [c' Hc']. rewrite Hc'.
    exists c'. apply findOne_some in Hc'. tauto.
  - exact Hlive.
  - intros c' Hk. simpl. split; intros Hc'.
    + apply in_restore in Hc'. destruct Hc' as [c0 [Hc0 [[-> _] | [-> Hn]]]].
      * exact Hc0.
      * simpl in Hk. congruence.
    + unfold restore. apply in_map_iff. exists c'. rewrite Hk. auto.
Qed.

Lemma comments_restore_revives_witness :
  let r := handle (comments_restore Demo.env (lit "1")) Demo.closed_store in
  exists c', outcome r = Sent 200 (CommentBody (Some c')) /\ active c' = true.
Proof.
  intros r.
  destruct (comments_restore_revives Demo.env (lit "1") Demo.closed_store
              (Demo.answer (Some 500%Z))) as [[c' [Ho [_ [Ha _]]]] _].
  - vm_compute. reflexivity.
  - simpl. left. reflexivity.
  - vm_compute. reflexivity.
  - intros c' [<- | []] _. reflexivity.
  - exists c'. split; [exact Ho | exact Ha].
Defined.

(** Restoring a comment that does not exist at all is not refused: the
    request is answered with 200 and an empty body, and the store stays as
    it is. *)
Lemma comments_restore_unknown : forall env id s,
  ToBoolean (Number_of_string id) = true ->
  (forall c, In c (comments s) -> where_key env id (comment_id c) = false) ->
  let r := handle (comments_restore env id) s in
  outcome r = Sent 200 (CommentBody None) /\ store r = s.
Proof.
  intros env id s Hnum Hnone r. subst r.
  assert (Hid : ToBoolean (Str id) = true).
  { destruct id; [vm_compute in Hnum; discriminate | reflexivity]. }
  assert (Hf : forall table, table = comments s ->
            findOne (fun c => where_key env id (comment_id c)) table = None).
  { intros table ->. apply findOne_all_inactive. intros c Hc Hk.
    rewrite (Hnone c Hc) in Hk. discriminate. }
  unfold handle, comments_restore. rewrite Hid, Hnum. cbn [negb].
  unfold bind, query, update. cbn [result final writes].
  rewrite (Hf _ eq_refl).
  cbn [result final writes app outcome store send ret].
  assert (Hs : with_comments (restore (fun c => where_key env id (comment_id c))) s
               = s).
  { destruct s as [us sts ls ps cs]. unfold with_comments.
    cbn [users stations lockers posts comments] in *.
    rewrite restore_no_match; [reflexivity | exact Hnone]. }
  rewrite Hs, (Hf _ eq_refl). split; reflexivity.
Qed.

Lemma comments_restore_unknown_witness :
  outcome (handle (comments_restore Demo.env (lit "7")) Demo.open_store) =
    Sent 200 (CommentBody None) /\
  store (handle (comments_restore Demo.env (lit "7")) Demo.open_store) =
    Demo.open_store.
Proof.
  apply (comments_restore_unknown Demo.env (lit "7") Demo.open_store).
  - vm_compute. reflexivity.
  - intros c [<- | []]. vm_compute. reflexivity.
Defined.

End DeleteRestoreFacts.

(** ** The user of the token *)

Section UsersMeFacts.
Import UsersRest Express.

(** The route never reports an error: whatever goes wrong in its [try]
    block, a missing or non-integer id included, ends in [next()] without
    the error; the only response it sends has status 200; and it writes
    nothing. *)
Lemma users_me_hides_errors : forall env id s,
  let r := respond_bare (users_me env id) s in
  (answer r = Skipped \/ exists body, answer r = Answered 200 body) /\
  (Number_isInteger id = false -> answer r = Skipped) /\
  after r = s /\ journal r = [].
Proof.
  intros env id s r. subst r. unfold respond_bare, users_me.
  destruct (Bool.eqb (validation (checkRequiredParameters env [id])) false);
    [cbn; repeat split; auto |].
  destruct (Number_isInteger id) eqn:Hint; cbn [negb].
  - unfold bind, query. cbn. repeat split; eauto. discriminate.
  - cbn. repeat split; auto.
Qed.

Lemma users_me_hides_errors_witness :
  answer (respond_bare (users_me Demo.env (Str (lit "1"))) Demo.open_store) = Skipped /\
  answer (respond_bare (users_me Demo.env (Num 1)) Demo.open_store) =
    Answered 200 (Some (1%Z, lit "alice@example.com", 10%Z)).
Proof.
  split.
  - destruct (users_me_hides_errors Demo.env (Str (lit "1")) Demo.open_store)
      as [_ [H _]].
    apply H. reflexivity.
  - vm_compute. reflexivity.
Defined.

End UsersMeFacts.

(** ** The earlier routes *)

Section EarlierFacts.
Import StationsEarlier UsersEarlier Express LifeCycle Integrity.

Lemma shown_spec : forall userId l,
  fst (shown userId l) = l /\
  (snd (shown userId l) = MyLocker <-> Orm.userId l = Some userId) /\
  (snd (shown userId l) <> MyLocker -> snd (shown userId l) = Stored (status l)).
Proof.
  intros userId l. unfold shown.
  destruct (Orm.userId l) as [k |]; [destruct (k =? userId)%Z eqn:E |]; cbn.
  - apply Z.eqb_eq in E. subst k. repeat split; auto. contradiction.
  - apply Z.eqb_neq in E. repeat split; auto; try discriminate.
    intros H. injection H as ->. contradiction.
  - repeat split; auto; discriminate.
Qed.

(** In the detail of a station a locker is shown as ['my locker'] exactly
    when it belongs to the requesting user; every other locker is shown
    with its stored status; the lockers shown are the active lockers of the
    station; and nothing is written, so the mark is never stored. *)
Lemma stations_get_mine_marks : forall env userId id s code detail,
  answer (respond (stations_get_mine env userId id) s) = Answered code detail ->
  code = 200 /\
  (forall l shown_as, In (l, shown_as) (detail_lockers detail) ->
     In l (lockers s) /\ active l = true /\
     where_key env id (stationId l) = true /\
     (shown_as = MyLocker <-> Orm.userId l = Some userId) /\
     (shown_as <> MyLocker -> shown_as = Stored (status l))) /\
  List.map fst (detail_lockers detail) =
    findAll (fun l => where_key env id (stationId l)) (lockers s) /\
  after (respond (stations_get_mine env userId id) s) = s /\
  journal (respond (stations_get_mine env userId id) s) = [].
Proof.
  intros env userId id s code detail.
  unfold respond, stations_get_mine, bind, query. cbn [result final writes].
  destruct (findOne _ (stations s)) as [station |]; [| cbn; discriminate].
  destruct (checkWeather env station) as [[temp hum] |]; [| cbn; discriminate].
  cbn [result final writes answer after journal ret app].
  intros Hans. injection Hans as <- <-. cbn [detail_lockers].
  split; [reflexivity |]. split; [| split; [| split; reflexivity]].
  - intros l shown_as Hin.
    apply in_map_iff in Hin. destruct Hin as [l0 [Heq Hin]].
    apply in_findAll in Hin. destruct Hin as [Hin [Hact Hkey]].
    destruct (shown_spec userId l0) as [Hfst [Hmine Hother]].
    rewrite Heq in Hfst, Hmine, Hother. cbn [fst snd] in *. subst l0.
    repeat split; tauto.
  - rewrite map_map. rewrite <- (map_id (findAll _ (lockers s))) at 2.
    apply map_ext. intros l. apply (shown_spec userId l).
Qed.

Lemma stations_get_mine_marks_witness :
  let s := with_lockers
             (fun _ => [Demo.locker 1 None;
                        {| locker_id := 2; stationId := 1; userId := Some 1%Z;
                           status := occupied; startDate := Some 60%Z;
                           endDate := None; locker_createdAt := 30;
                           locker_updatedAt := 60; locker_deletedAt := None |}])
             Demo.open_store in
  exists detail,
    answer (respond (stations_get_mine Demo.env 1 (lit "1")) s) = Answered 200 detail /\
    List.map snd (detail_lockers detail) = [Stored unoccupied; MyLocker] /\
    after (respond (stations_get_mine Demo.env 1 (lit "1")) s) = s.
Proof.
  intros s. eexists. split; [vm_compute; reflexivity |].
  split; [reflexivity |].
  eapply (stations_get_mine_marks Demo.env 1%Z (lit "1") s).
  vm_compute. reflexivity.
Defined.

(** Deleting a station by its name keeps the invariant of stations and
    lockers, at every write, when the active stations have distinct
    names. *)
Lemma stations_delete_by_name_inv : forall env name s s',
  names_unique s ->
  station_locker_inv s ->
  In s' (trace (handle (stations_delete_by_name env name) s)) ->
  station_locker_inv s'.
Proof.
  intros env nm s s' Huniq Hinv Hin.
  unfold handle, stations_delete_by_name, bind, query, update in Hin.
  cbn [result final writes trace] in Hin.
  destruct (findOne (Stations.where_name nm) (stations s)) as [found |] eqn:Hf;
    cbn [result final writes app send ret] in Hin; [| contradiction].
  apply findOne_some in Hf. destruct Hf as [Hfin [Hfact Hfname]].
  destruct Hin as [<- | [<- | []]].
  - apply inv_destroy_lockers. exact Hinv.
  - intros l st Hl Hst Heq Hact. simpl in Hl, Hst.
    apply in_destroy in Hst.
    destruct Hst as [st0 [Hst0 [[-> _] | [-> [Hact0 Hname0]]]]].
    + apply (inv_destroy_lockers (now env)
               (fun l => (stationId l =? station_id found)%Z) s Hinv l st0);
        assumption.
    + exfalso.
      assert (Hsame : st0 = found).
      { unfold names_unique in Huniq.
        assert (Hinj : forall (l : list Station), NoDup (List.map Orm.name l) ->
                  forall a b, In a l -> In b l -> Orm.name a = Orm.name b -> a = b).
        { induction l0 as [| h t IH]; intros Hnd a b Ha Hb Hab; [contradiction |].
          inversion Hnd as [| x xs Hnot Hnd' ]; subst.
          destruct Ha as [-> | Ha]; destruct Hb as [-> | Hb].
          - reflexivity.
          - exfalso. apply Hnot. rewrite Hab. apply in_map. exact Hb.
          - exfalso. apply Hnot. rewrite <- Hab. apply in_map. exact Ha.
          - apply IH; assumption. }
        apply (Hinj _ Huniq).
        - apply in_findAll. auto.
        - apply in_findAll. auto.
        - unfold Stations.where_name in *.
          apply jsstring_eqb_eq in Hname0. apply jsstring_eqb_eq in Hfname.
          congruence. }
      subst st0. simpl in Heq.
      rewrite (destroy_lockers_inactive (now env) (station_id found) s l Hl Heq)
        in Hact.
      discriminate.
Qed.

Lemma stations_delete_by_name_inv_witness :
  station_locker_inv
    (store (handle (stations_delete_by_name Demo.env (lit "seoul")) Demo.open_store)).
Proof.
  apply (stations_delete_by_name_inv Demo.env (lit "seoul") Demo.open_store).
  - unfold names_unique. cbn. constructor; [intros [] | constructor].
  - intros l st Hl Hst _ _. simpl in Hst. destruct Hst as [<- | []]. reflexivity.
  - simpl. right. left. reflexivity.
Defined.

(** The earlier detail of a user does answer: for an id that reads as a
    number other than zero and an active user with that key, the response
    is 200 with the user and exactly the active lockers the user holds, and
    nothing is written. *)
Lemma users_get_number_answers : forall env id s,
  validation (checkRequiredParameters env [Str id]) = true ->
  ToBoolean (Number_of_string id) = true ->
  (exists u, In u (users s) /\ active u = true /\ where_key env id (user_id u) = true) ->
  let r := handle (users_get_number env id) s in
  exists user userLocker,
    outcome r = Sent 200 (UserLockersBody (user_id user, email user) userLocker) /\
    In user (users s) /\ active user = true /\
    where_key env id (user_id user) = true /\
    (forall l, In l userLocker <->
               In l (lockers s) /\ active l = true /\
               where_key_opt env id (Orm.userId l) = true) /\
    store r = s /\ trace r = [].
Proof.
  intros env id s Hcheck Hnum [u [Hin [Hact Hkey]]] r. subst r.
  destruct (findOne_exists (fun u => where_key env id (user_id u)) (users s) u
              Hin Hact Hkey) as [user Hf].
  unfold handle, users_get_number. rewrite Hcheck, Hnum. cbn [Bool.eqb negb].
  unfold bind, query. cbn [result final writes]. rewrite Hf.
  cbn [result final writes outcome store trace send ret app].
  exists user, (findAll (fun l => where_key_opt env id (Orm.userId l)) (lockers s)).
  apply findOne_some in Hf. destruct Hf as [Hu [Hua Huk]].
  split; [reflexivity |]. split; [exact Hu |]. split; [exact Hua |].
  split; [exact Huk |]. split; [| split; reflexivity].
  intros l.
  exact (in_findAll (fun l => where_key_opt env id (Orm.userId l)) (lockers s) l).
Qed.

Lemma users_get_number_answers_witness :
  exists userLocker,
    outcome (handle (users_get_number Demo.env (lit "1")) Demo.open_store) =
      Sent 200 (UserLockersBody (1%Z, lit "alice@example.com") userLocker).
Proof.
  destruct (users_get_number_answers Demo.env (lit "1") Demo.open_store)
    as [user [userLocker [Ho [Hin _]]]].
  - reflexivity.
  - vm_compute. reflexivity.
  - exists Demo.alice. repeat split. left. reflexivity.
  - destruct Hin as [<- | []]. exists userLocker. exact Ho.
Defined.

End EarlierFacts.

(** ** Primary keys *)

Section KeyFacts.
Import Auth Posts CommentsRest Stations Integrity.

Lemma keys_after_append : forall (A : Type) (key : A -> Z) (table : list A) (r : A),
  NoDup (List.map key table) ->
  key r = next_id (List.map key table) ->
  NoDup (List.map key (table ++ [r])).
Proof.
  intros A key table r Hnd Hkey. rewrite map_app. cbn.
  apply NoDup_app_fresh; [exact Hnd |]. rewrite Hkey. apply next_id_fresh.
Qed.

(** The routes that add rows keep the primary keys of every table distinct:
    sign-up, posting a post, posting a comment and creating stations give
    each new row a key that no row of its table has, deleted rows
    included. *)
Lemma creating_keeps_keys_unique : forall env s,
  keys_unique s ->
  (forall email password,
     keys_unique (store (handle (sign_up env email password) s))) /\
  (forall email title content,
     keys_unique (store (handle (posts_post env email title content) s))) /\
  (forall postId content,
     keys_unique (store (handle (comments_post env postId content) s))) /\
  (forall data, keys_unique (store (handle (stations_post env data) s))).
Proof.
  intros env s Hkeys. split; [| split; [| split]].
  - intros email password.
    destruct (sign_up_only_writes_on_success env s email password)
      as [Hsent [Hfail Hpending]].
    destruct (outcome (handle (sign_up env email password) s)) as [code b | err |]
      eqn:Ho.
    + destruct (Hsent code b eq_refl) as [e [p [-> [-> [Hacc Hunused]]]]].
      destruct (sign_up_accepted env s e p Hacc Hunused) as [_ [Hs _]]. rewrite Hs.
      destruct Hkeys as [Hu [Hst [Hp Hc]]].
      unfold keys_unique, with_users. cbn [users stations posts comments].
      repeat split; try assumption.
      apply keys_after_append; [exact Hu | reflexivity].
    + destruct (Hfail err eq_refl) as [-> _]. exact Hkeys.
    + contradiction.
  - intros email title content.
    unfold handle, posts_post, transaction, bind, query, update.
    cbn [result final writes].
    destruct (find_user_by_email email s);
      cbn [result final writes store]; [| exact Hkeys].
    destruct Hkeys as [Hu [Hst [Hp Hc]]].
    unfold keys_unique, with_posts. cbn [users stations posts comments].
    repeat split; try assumption.
    apply keys_after_append; [exact Hp | reflexivity].
  - intros postId content.
    destruct (comments_post_cases env s postId content)
      as [Hsent [Hfail Hpending]].
    destruct (outcome (handle (comments_post env postId content) s))
      as [code b | err |] eqn:Ho.
    + destruct (Hsent code b eq_refl) as [post [text [_ [_ [_ [_ [_ [_ Hs]]]]]]]].
      rewrite Hs. destruct Hkeys as [Hu [Hst [Hp Hc]]].
      unfold keys_unique, with_comments. cbn [users stations posts comments].
      repeat split; try assumption.
      apply keys_after_append; [exact Hc | reflexivity].
    + destruct (Hfail err eq_refl) as [-> _]. exact Hkeys.
    + contradiction.
  - intros data. apply stations_post_keeps; [| exact Hkeys].
    intros n s1 [Hu [Hst [Hp Hc]]].
    destruct (stations_post_item_spec env data n s1)
      as [[nm [la [lo [_ [Hf _]]]]] | [e [_ [Hf _]]]]; rewrite Hf.
    + unfold keys_unique, with_stations. cbn [users stations posts comments].
      repeat split; try assumption.
      apply keys_after_append; [exact Hst | reflexivity].
    + repeat split; assumption.
Qed.

Lemma creating_keeps_keys_unique_witness :
  keys_unique Demo.open_store /\
  keys_unique
    (store (handle (stations_post Demo.env
                      (Arr [Demo.station_item "a" 89.5 0;
                            Demo.station_item "b" 10 20])) Demo.open_store)).
Proof.
  assert (H0 : keys_unique Demo.open_store).
  { unfold keys_unique. cbn.
    repeat split; repeat constructor; intros []. }
  split; [exact H0 |].
  apply (creating_keeps_keys_unique Demo.env Demo.open_store H0).
Defined.

End KeyFacts.

(** ** The domain of an accepted email *)

Section DomainFacts.
Import Regex Language Auth Integrity.

Lemma Lang_nullable : forall r, nullable r = true -> Lang r [].
Proof.
  induction r as [| | | ranges | r1 IH1 r2 IH2 | r1 IH1 r2 IH2 | r1 IH1];
    cbn; intros Hn; try discriminate.
  - constructor.
  - apply andb_true_iff in Hn. destruct Hn as [H1 H2].
    change (@nil code_unit) with (@nil code_unit ++ []).
    constructor; auto.
  - apply orb_true_iff in Hn. destruct Hn as [H1 | H2].
    + apply LAltL. auto.
    + apply LAltR. auto.
  - constructor.
Qed.

Lemma Lang_seq : forall r1 r2 s, Lang (seq r1 r2) s -> Lang (Seq r1 r2) s.
Proof.
  intros r1 r2 s H.
  destruct r1; destruct r2; cbn in H; try exact H;
    try (inversion H; fail);
    try (change s with ([] ++ s); constructor; [constructor | exact H]).
Qed.

Lemma Lang_alt : forall r1 r2 s, Lang (alt r1 r2) s -> Lang (Alt r1 r2) s.
Proof.
  intros r1 r2 s H.
  destruct r1; destruct r2; cbn in H; try exact H;
    try (apply LAltR; exact H); try (apply LAltL; exact H).
Qed.

(** What is left after reading [c] stands for the rest of a string of the
    pattern. *)
Lemma Lang_deriv : forall r c s, Lang (deriv c r) s -> Lang r (c :: s).
Proof.
  induction r as [| | | ranges | r1 IH1 r2 IH2 | r1 IH1 r2 IH2 | r1 IH1];
    intros c s H; cbn in H.
  - inversion H.
  - inversion H.
  - inversion H; subst. constructor.
  - destruct (in_class ranges c) eqn:E; inversion H; subst.
    constructor. exact E.
  - apply Lang_alt in H. inversion H as [| | | | ? ? ? Hl | ? ? ? Hr | |]; subst.
    + apply Lang_seq in Hl.
      inversion Hl as [| | | ? ? s1 s2 H1 H2 | | | |]; subst.
      change (c :: s1 ++ s2) with ((c :: s1) ++ s2).
      constructor; [apply IH1; exact H1 | exact H2].
    + destruct (nullable r1) eqn:En; [| inversion Hr].
      change (c :: s) with ([] ++ c :: s).
      constructor; [apply Lang_nullable; exact En | apply IH2; exact Hr].
  - apply Lang_alt in H. inversion H; subst.
    + apply LAltL. apply IH1. assumption.
    + apply LAltR. apply IH2. assumption.
  - apply Lang_seq in H.
    inversion H as [| | | ? ? s1 s2 H1 H2 | | | |]; subst.
    change (c :: s1 ++ s2) with ((c :: s1) ++ s2).
    constructor; [apply IH1; exact H1 | exact H2].
Qed.

(** The matcher accepts only strings of the pattern. *)
Lemma matches_Lang : forall s r, matches r s = true -> Lang r s.
Proof.
  unfold matches. induction s as [| c s IH]; intros r H; cbn in H.
  - apply Lang_nullable. exact H.
  - apply Lang_deriv. apply IH. exact H.
Qed.

(** A string of a pattern is made of characters the pattern can read. *)
Lemma Lang_alphabet : forall r s,
  Lang r s -> forall c, In c s -> alphabet r c = true.
Proof.
  intros r s H.
  induction H as [| c0 | ranges c0 Hc | r1 r2 s1 s2 H1 IH1 H2 IH2
                  | r1 r2 s H1 IH1 | r1 r2 s H2 IH2 | r1
                  | r1 s1 s2 H1 IH1 H2 IH2]; intros c Hin; cbn.
  - contradiction.
  - reflexivity.
  - destruct Hin as [<- | []]. exact Hc.
  - apply in_app_iff in Hin. apply orb_true_iff.
    destruct Hin; [left; apply IH1 | right; apply IH2]; assumption.
  - apply orb_true_iff. left. apply IH1. assumption.
  - apply orb_true_iff. right. apply IH2. assumption.
  - contradiction.
  - apply in_app_iff in Hin. destruct Hin; [apply IH1 | apply IH2]; assumption.
Qed.

(** A domain that passes the test of the handler is made of digits,
    letters, underscores, minus signs and dots, and holds a dot. *)
Lemma domain_shape : forall domain,
  String_match domain emailAfterAtPattern = true ->
  forallb domain_character domain = true /\ In (ch ".") domain.
Proof.
  intros domain Hm. unfold String_match, test in Hm.
  apply matches_Lang in Hm. cbn [from_start to_end body emailAfterAtPattern] in Hm.
  split.
  - apply forallb_forall. intros c Hc.
    pose proof (Lang_alphabet _ _ Hm c Hc) as Ha.
    cbn in Ha. unfold domain_character. cbn.
    repeat rewrite orb_false_r in Ha.
    repeat rewrite orb_false_r.
    repeat (apply orb_true_iff in Ha; destruct Ha as [Ha | Ha]);
      rewrite ?Ha, ?orb_true_r; reflexivity.
  - inversion Hm as [| | | ? ? s1 s2 _ H2 | | | |]; subst.
    inversion H2 as [| | | ? ? s3 s4 H3 _ | | | |]; subst.
    inversion H3 as [| | | ? ? s5 s6 _ H5 | | | |]; subst.
    cbn [Repeat] in H5.
    inversion H5 as [| | | ? ? s7 s8 H7 _ | | | |]; subst.
    inversion H7 as [| | | ? ? s9 s10 H9 _ | | | |]; subst.
    inversion H9 as [| | ? c Hc | | | | |]; subst.
    assert (c = ch ".").
    { cbn in Hc. rewrite orb_false_r in Hc. apply andb_true_iff in Hc.
      destruct Hc as [Hlo Hhi]. apply N.leb_le in Hlo. apply N.leb_le in Hhi.
      cbn in *. lia. }
    subst c. rewrite !in_app_iff. cbn. tauto.
Qed.

(** Every email that sign-up stores has, between its first and its second
    at sign, a domain made of digits, letters, underscores, minus signs and
    dots with at least one dot, and the email holds no special character and
    no white space. *)
Lemma sign_up_email_shape : forall env s email password code b,
  outcome (handle (sign_up env email password) s) = Sent code b ->
  exists e domain,
    email = Some e /\
    nth_error (String_split (ch "@") e) 1 = Some domain /\
    forallb domain_character domain = true /\ In (ch ".") domain /\
    existsb (in_class special_set) e = false /\
    existsb is_white_space e = false.
Proof.
  intros env s email password code b Hsent.
  destruct (sign_up_only_writes_on_success env s email password) as [H _].
  destruct (H code b Hsent) as [e [p [-> [_ [Hacc _]]]]].
  destruct Hacc as [_ [Hsp [Hws [_ [[domain [Hd Hdm]] _]]]]].
  exists e, domain.
  destruct (domain_shape domain Hdm) as [Hchars Hdot].
  rewrite <- match_specialCharacters, <- match_emptySpace.
  repeat split; assumption.
Qed.

Lemma sign_up_email_shape_witness :
  exists e domain,
    Some (lit "bob@example.com") = Some e /\
    nth_error (String_split (ch "@") e) 1 = Some domain /\
    forallb domain_character domain = true /\ In (ch ".") domain /\
    existsb (in_class special_set) e = false /\
    existsb is_white_space e = false.
Proof.
  apply (sign_up_email_shape Demo.env Demo.open_store
           (Some (lit "bob@example.com")) (Some (lit "longenough")) 201
           (UserBody (Some (2%Z, lit "bob@example.com")))).
  vm_compute. reflexivity.
Defined.

Lemma String_split_second_piece : forall sep e t,
  In sep e ->
  nth_error (String_split sep (e ++ sep :: t)) 1 = nth_error (String_split sep e) 1.
Proof.
  intros sep e t. induction e as [| c rest IH]; intros Hin; [contradiction |].
  cbn [app String_split].
  destruct (c =? sep)%N eqn:E.
  - cbn [nth_error].
    clear IH Hin. induction rest as [| d rest IH]; cbn [app String_split].
    + rewrite N.eqb_refl. reflexivity.
    + destruct (d =? sep)%N; [reflexivity |].
      destruct (String_split sep (rest ++ sep :: t)) as [| p ps] eqn:E1;
        [exfalso; eapply String_split_nonempty; eassumption |].
      destruct (String_split sep rest) as [| q qs] eqn:E2;
        [exfalso; eapply String_split_nonempty; eassumption |].
      cbn in IH. cbn. congruence.
  - destruct Hin as [-> | Hin]; [rewrite N.eqb_refl in E; discriminate |].
    specialize (IH Hin).
    destruct (String_split sep (rest ++ sep :: t)) as [| p ps] eqn:E1;
      [exfalso; eapply String_split_nonempty; eassumption |].
    destruct (String_split sep rest) as [| q qs] eqn:E2;
      [exfalso; eapply String_split_nonempty; eassumption |].
    exact IH.
Qed.

(** Only the text between the first and the second at sign is tested as a
    domain: an acceptable email stays acceptable when a further at sign and
    any text without special characters and white space follow it. When no
    row of the users table, soft-deleted ones included, holds the longer
    email, sign-up with it is answered with 201. *)
Lemma sign_up_ignores_text_after_second_at : forall env s e t p,
  acceptable e p s ->
  existsb (in_class special_set) t = false ->
  existsb is_white_space t = false ->
  email_taken (e ++ ch "@" :: t) s = false ->
  exists id,
    outcome (handle (sign_up env (Some (e ++ ch "@" :: t)) (Some p)) s) =
      Sent 201 (UserBody (Some (id, e ++ ch "@" :: t))).
Proof.
  intros env s e t p Hacc Ht_special Ht_space Hunused.
  pose proof (email_unused_not_found _ _ Hunused) as Hfree.
  destruct Hacc as [_ [Hsp [Hws [Hst [[domain [Hd Hdm]] [Hlen Hpw]]]]]].
  assert (Hat : In (ch "@") e).
  { destruct (in_dec N.eq_dec (ch "@") e) as [Hin | Hno]; [exact Hin |].
    rewrite (String_split_absent _ _ Hno) in Hd. discriminate. }
  assert (Hacc' : acceptable (e ++ ch "@" :: t) p s).
  { unfold acceptable. split; [exact Hfree |].
    rewrite match_specialCharacters in *. rewrite match_emptySpace in *.
    rewrite match_startEnglishNumber in *.
    rewrite !existsb_app. cbn [existsb].
    rewrite Hsp, Hws, Ht_special, Ht_space.
    split; [vm_compute; reflexivity |]. split; [vm_compute; reflexivity |].
    split; [destruct e; [discriminate | exact Hst] |].
    split; [| split; [assumption | rewrite match_emptySpace; exact Hpw]].
    exists domain. rewrite String_split_second_piece by exact Hat. auto. }
  destruct (sign_up_accepted env s _ p Hacc' Hunused) as [Ho _].
  eexists. exact Ho.
Qed.

Lemma sign_up_ignores_text_after_second_at_witness :
  exists id,
    outcome (handle (sign_up Demo.env (Some (lit "bob@example.com@x..y"))
                       (Some (lit "longenough"))) Demo.open_store) =
      Sent 201 (UserBody (Some (id, lit "bob@example.com@x..y"))).
Proof.
  apply (sign_up_ignores_text_after_second_at Demo.env Demo.open_store
           (lit "bob@example.com") (lit "x..y") (lit "longenough")).
  - unfold acceptable. repeat split; try (vm_compute; reflexivity).
    + exists (lit "example.com"). split; vm_compute; reflexivity.
    + vm_compute. lia.
    + vm_compute. lia.
  - vm_compute. reflexivity.
  - vm_compute. reflexivity.
  - vm_compute. reflexivity.
Defined.

End DomainFacts.

(** ** Instances of the lemmas on passwords and on deleting a station *)

Lemma password_length_rejected_witness :
  status_of (outcome (handle (Auth.sign_up Demo.env (Some (lit "bob@example.com"))
                                (Some (lit "sixteencharacter"))) Demo.open_store))
  = Some 400.
Proof.
  apply (password_length_rejected Demo.env Demo.open_store
           (lit "bob@example.com") (lit "sixteencharacter")).
  - vm_compute. tauto.
  - right. vm_compute. lia.
Defined.

Lemma stations_delete_marks_witness :
  let r := handle (Stations.stations_delete Demo.env (lit "1")) Demo.open_store in
  outcome r = Sent 204 NoBody /\
  List.map active (stations (store r)) = [false] /\
  List.map active (lockers (store r)) = [false; false].
Proof.
  intros r.
  destruct (stations_delete_marks Demo.env (lit "1") Demo.open_store
              (Demo.seoul None)) as [Ho _].
  - discriminate.
  - vm_compute. reflexivity.
  - split; [exact Ho |]. split; vm_compute; reflexivity.
Defined.
